(** * Verification of the eyewear matching pipeline (backend/match.py)

    A shallow embedding of [backend/match.py]: the heuristic property
    extractor, the two shape analysers, the background suppressor, the
    validation gate, the embedding matcher with its shape boost, the
    shape-keyword fallback and the process boundary; and of the selection
    logic of [backend/render_thumbnails.py], which renders the reference
    images the matcher reads.

    Conventions of the embedding.
    - Python floats are exact rationals ([Q]); rounding of the floating
      point unit is not modelled.
    - A decoded PIL image in mode RGB is a grid of channel triples; a mode
      L image is a grid of integers.
    - Everything the script obtains from outside (files, PIL resampling,
      numpy's square root, the CLIP model, the cached embeddings, the
      module-level model list) is a field of the record [World].
    - A Python exception is the constructor [Raise]; [print] to stderr is
      not part of the output contract and is left out. *)

From Stdlib Require Import ZArith QArith Qround List String Ascii Bool Lia Lqa.
From Stdlib Require Import Sorting.Mergesort Orders Numbers.DecimalString.
Import ListNotations.

Local Open Scope string_scope.
Local Open Scope list_scope.
Local Open Scope Z_scope.

(* ------------------------------------------------------------------ *)
(** ** Numbers *)

Definition Qltb (x y : Q) : bool := negb (Qle_bool y x).
Definition Qgtb (x y : Q) : bool := Qltb y x.
Definition Qgeb (x y : Q) : bool := Qle_bool y x.

(** Exact addition; fractions with a common denominator are added on it,
    any other sum is put in lowest terms. *)
Definition Qadd (x y : Q) : Q :=
  if Pos.eqb (Qden x) (Qden y) then (Qnum x + Qnum y) # (Qden x)
  else Qred (x + y).

(** Sum of a flat array. *)
Definition Qsum (l : list Q) : Q :=
  match l with
  | [] => (0 # 1)%Q
  | x :: l' => fold_left Qadd l' x
  end.

Definition len {A} (l : list A) : Z := Z.of_nat (Datatypes.length l).

(** [np.mean] of a flat array. *)
Definition np_mean (l : list Q) : Q := Qred (Qsum l / inject_Z (len l)).

(** [np.var]: population variance. *)
Definition np_var (l : list Q) : Q :=
  let m := np_mean l in
  np_mean (map (fun x => (x - m) * (x - m))%Q l).

Definition Qmin (x y : Q) : Q := if Qle_bool x y then x else y.
Definition Qmax (x y : Q) : Q := if Qle_bool x y then y else x.

(** Nearest integer, ties to even: the rounding of Python's [round] and of
    its fixed-point formats. *)
Definition round_half_even (x : Q) : Z :=
  let f := Qfloor x in
  let r := (x - inject_Z f)%Q in
  if Qltb r (1 # 2) then f
  else if Qltb (1 # 2) r then f + 1
  else if Z.even f then f else f + 1.

(** [round(x, ndigits)]. *)
Definition py_round (x : Q) (ndigits : nat) : Q :=
  let s := inject_Z (10 ^ Z.of_nat ndigits) in
  Qred (inject_Z (round_half_even (x * s)) / s).

(** [.astype(int)] on a non-negative float: truncation. *)
Definition astype_int (x : Q) : Z := Qfloor x.

(* ------------------------------------------------------------------ *)
(** ** Strings *)

Definition lower_ascii (c : ascii) : ascii :=
  let n := nat_of_ascii c in
  if (Nat.leb 65 n && Nat.leb n 90)%bool then ascii_of_nat (n + 32) else c.

(** [str.lower] on file names (ASCII letters). *)
Fixpoint lower (s : string) : string :=
  match s with
  | EmptyString => EmptyString
  | String c s' => String (lower_ascii c) (lower s')
  end.

(** [kw in s] for strings. *)
Fixpoint contains (kw s : string) : bool :=
  (prefix kw s ||
   match s with
   | EmptyString => false
   | String _ s' => contains kw s'
   end)%bool.

(** [s.startswith(p)]. *)
Definition startswith (s p : string) : bool := prefix p s.

Definition Z_to_string (x : Z) : string :=
  NilEmpty.string_of_int (Z.to_int x).

Definition hex_digit (d : Z) : string :=
  String (ascii_of_nat (Z.to_nat (if d <? 10 then 48 + d else 87 + d)))
         EmptyString.

Fixpoint hex_digits (fuel : nat) (n : Z) : string :=
  match fuel with
  | O => EmptyString
  | S k => if n <? 16 then hex_digit n
           else (hex_digits k (n / 16) ++ hex_digit (n mod 16))%string
  end.

(** The format [{n:02x}] for a non-negative integer. *)
Definition hex02 (n : Z) : string :=
  let s := hex_digits (S (Z.to_nat (Z.log2 n))) n in
  if Nat.ltb (String.length s) 2 then ("0" ++ s)%string else s.

(** [f"#{r:02x}{g:02x}{b:02x}"]. *)
Definition hex_color (r g b : Z) : string :=
  ("#" ++ hex02 r ++ hex02 g ++ hex02 b)%string.

(** The format [{x:.1%}] for a non-negative number. *)
Definition fmt_pct1 (x : Q) : string :=
  let n := round_half_even (x * 1000) in
  (Z_to_string (n / 10) ++ "." ++ Z_to_string (n mod 10) ++ "%")%string.

(** Position of the last occurrence of [c], counted from the left. *)
Fixpoint rfind (c : ascii) (s : string) : option nat :=
  match s with
  | EmptyString => None
  | String a s' =>
      match rfind c s' with
      | Some i => Some (S i)
      | None => if Ascii.eqb a c then Some O else None
      end
  end.

(** [os.path.splitext] (posix). *)
Definition splitext (p : string) : string * string :=
  let fname := match rfind "/" p with Some i => S i | None => O end in
  match rfind "." p with
  | Some dot =>
      if Nat.ltb fname dot then
        (* a dot that follows something other than leading dots *)
        let stem := substring fname (dot - fname) p in
        if existsb (fun a => negb (Ascii.eqb a "."))
                   (list_ascii_of_string stem)
        then (substring 0 dot p, substring dot (String.length p - dot) p)
        else (p, "")
      else (p, "")
  | None => (p, "")
  end.

(* ------------------------------------------------------------------ *)
(** ** Images and arrays *)

Definition rgb : Type := Z * Z * Z.

(** A two-dimensional array, row by row. *)
Definition grid (A : Type) : Type := list (list A).

Definition height {A} (g : grid A) : nat := Datatypes.length g.

Definition width {A} (g : grid A) : nat :=
  match g with
  | [] => O
  | r :: _ => Datatypes.length r
  end.

(** [a.reshape(-1)]. *)
Definition flat {A} (g : grid A) : list A := List.concat g.

Definition grid_map {A B} (f : A -> B) (g : grid A) : grid B := map (map f) g.

(** The slice [l[a:b]] for [0 <= a]. *)
Definition slice {A} (a b : nat) (l : list A) : list A :=
  firstn (b - a) (skipn a l).

(** The slice [l[-k:]] for [0 < k]. *)
Definition last_n {A} (k : nat) (l : list A) : list A :=
  skipn (Datatypes.length l - k) l.

(** The slice [g[r0:r1, c0:c1]]. *)
Definition slice2 {A} (r0 r1 c0 c1 : nat) (g : grid A) : grid A :=
  map (slice c0 c1) (slice r0 r1 g).

Definition count_true (l : list bool) : Z := len (filter (fun b => b) l).

(** [np.any(m, axis=1)]: one flag per row. *)
Definition rows_any (m : grid bool) : list bool := map (existsb (fun b => b)) m.

Fixpoint map2 {A B C} (f : A -> B -> C) (l1 : list A) (l2 : list B) : list C :=
  match l1, l2 with
  | a :: l1', b :: l2' => f a b :: map2 f l1' l2'
  | _, _ => []
  end.

(** [np.any(m, axis=0)]: one flag per column. *)
Definition cols_any (m : grid bool) : list bool :=
  match m with
  | [] => []
  | r :: rs => fold_left (map2 orb) rs r
  end.

(** [np.where(v)[0][0]]. *)
Fixpoint first_true (v : list bool) : option nat :=
  match v with
  | [] => None
  | b :: v' => if b then Some O else option_map S (first_true v')
  end.

(** [np.where(v)[0][-1]]. *)
Fixpoint last_true (v : list bool) : option nat :=
  match v with
  | [] => None
  | b :: v' =>
      match last_true v' with
      | Some i => Some (S i)
      | None => if b then Some O else None
      end
  end.

(** [np.mean] of a boolean array. *)
Definition mean_bool (m : grid bool) : Q :=
  (inject_Z (count_true (flat m)) / inject_Z (len (flat m)))%Q.

(** Outcome of a call that may raise. *)
Inductive outcome (A : Type) : Type :=
| Ret (a : A)
| Raise (e : string).
Arguments Ret {A} a.
Arguments Raise {A} e.

Definition bind {A B} (m : outcome A) (k : A -> outcome B) : outcome B :=
  match m with
  | Ret a => k a
  | Raise e => Raise e
  end.

Notation "x <- m ;; k" := (bind m (fun x => k))
  (at level 61, m at next level, right associativity).

(** [try: m except Exception: h]. *)
Definition try_except {A} (m : outcome A) (h : string -> A) : A :=
  match m with
  | Ret a => a
  | Raise e => h e
  end.

(* ------------------------------------------------------------------ *)
(** ** The environment of a run *)

(** The zero-shot model returned by [load_clip]. *)
Record Clip : Type := {
  (** softmax of [logits_per_image] over the 23 prompts, for one image *)
  clip_probs : grid rgb -> outcome (list Q);
  (** [(mean_feat @ ref_feats.T).squeeze(0)]: cosine similarity of the
      averaged, renormalised upload features with every cached row *)
  clip_sims : list (grid rgb) -> outcome (list Q);
  (** feature extraction and [torch.save] of [build_embeddings] *)
  clip_build : list (grid rgb) -> outcome unit
}.

(** What [torch.load(EMBEDDINGS_FILE)] finds. *)
Inductive cache_file : Type :=
| NoCacheFile                          (* os.path.exists is false *)
| BadCacheFile                         (* loading raises *)
| Cached (filenames : list string).    (* data["filenames"] *)

(** What [os.path.isdir] and [os.listdir] find at [REF_DIR]. *)
Inductive ref_dir : Type :=
| NotADirectory
| Listing (names : list string)
| ListingFails (e : string).

Record World : Type := {
  (** [Image.open(path).convert('RGB')] *)
  image_open : string -> outcome (grid rgb);
  (** PIL's resampling to width x height when the size changes *)
  resample_rgb : nat -> nat -> grid rgb -> outcome (grid rgb);
  resample_l : nat -> nat -> grid Z -> outcome (grid Z);
  (** [import numpy], [from PIL import Image] succeed *)
  numpy_available : bool;
  (** [from scipy import ndimage] succeeds *)
  scipy_available : bool;
  (** [np.std] of a flat array (floating-point square root) *)
  np_std : list Q -> Q;
  (** result of [load_clip()] *)
  clip : option Clip;
  embeddings_file : cache_file;
  reference_images : ref_dir;
  (** module-level [AVAILABLE_MODELS] *)
  AVAILABLE_MODELS : list string;
  (** [models_cache.json], when it exists and parses *)
  models_cache : option (list string)
}.

(** [img.resize((w, h))]: PIL returns a copy when the size is unchanged. *)
Definition resize_rgb (W : World) (w h : nat) (img : grid rgb)
  : outcome (grid rgb) :=
  if (Nat.eqb (width img) w && Nat.eqb (height img) h)%bool then Ret img
  else resample_rgb W w h img.

Definition resize_l (W : World) (w h : nat) (img : grid Z)
  : outcome (grid Z) :=
  if (Nat.eqb (width img) w && Nat.eqb (height img) h)%bool then Ret img
  else resample_l W w h img.

(** [convert('L')] of an RGB pixel: the ITU-R 601-2 luma in PIL's fixed
    point. *)
Definition luma (p : rgb) : Z :=
  let '(r, g, b) := p in
  Z.shiftr (r * 19595 + g * 38470 + b * 7471 + 32768) 16.

Definition convert_l (img : grid rgb) : grid Z := grid_map luma img.

(** [img.crop((x0, y0, x1, y1))] inside the image. *)
Definition crop {A} (x0 y0 x1 y1 : nat) (img : grid A) : grid A :=
  slice2 y0 y1 x0 x1 img.

(** [np.mean(p)] over the three channels of one pixel. *)
Definition channel_mean (p : rgb) : Q :=
  let '(r, g, b) := p in
  np_mean [inject_Z r; inject_Z g; inject_Z b].

(* ------------------------------------------------------------------ *)
(** ** Background suppressor: [remove_background] *)

(** Index of scipy's boundary mode [reflect] on an axis of length [n]. *)
Definition reflect (n k : Z) : Z :=
  let m := k mod (2 * n) in
  if m <? n then m else 2 * n - 1 - m.

Definition at2 {A} (d : A) (g : grid A) (i j : Z) : A :=
  nth (Z.to_nat j) (nth (Z.to_nat i) g []) d.

Definition indices (n : nat) : list Z := map Z.of_nat (seq 0 n).

(** An axis extended by two reflected elements on either side. *)
Definition pad2 {A} (d : A) (l : list A) : list A :=
  let n := Z.of_nat (Datatypes.length l) in
  let pick k := nth (Z.to_nat (reflect n k)) l d in
  map pick [-2; -1] ++ l ++ map pick [n; n + 1].

(** The runs of [k] consecutive elements of [l], from left to right. *)
Fixpoint windows {A} (k : nat) (l : list A) : list (list A) :=
  match l with
  | [] => []
  | _ :: l' =>
      if Nat.leb k (Datatypes.length l) then firstn k l :: windows k l'
      else []
  end.

(** The 5x5 neighbourhoods of [ndimage.generic_filter(gray, f, size=5)]
    (mode reflect), one per position. *)
Definition windows5x5 (g : grid Q) : grid (list Q) :=
  let padded := pad2 [] (map (pad2 (0 # 1)%Q) g) in
  map (fun rows5 =>
         fold_right (map2 (@app Q)) (repeat [] (width g))
                    (map (windows 5) rows5))
      (windows 5 padded).

(** [ndimage.generic_filter(gray, np.var, size=5)]. *)
Definition variance_filter (g : grid Q) : grid Q :=
  grid_map np_var (windows5x5 g).

(** A row moved one place to the right, or to the left, filled with 0. *)
Definition shift_right (l : list bool) : list bool := false :: removelast l.
Definition shift_left (l : list bool) : list bool := tl l ++ [false].

(** One step of [ndimage.binary_dilation] with the default cross-shaped
    structuring element and border value 0. *)
Definition dilate (m : grid bool) : grid bool :=
  let blank := repeat false (width m) in
  let above := blank :: removelast m in
  let below := tl m ++ [blank] in
  map2 (fun row ab =>
          map2 orb (map2 orb row (map2 orb (shift_right row) (shift_left row)))
               (map2 orb (fst ab) (snd ab)))
       m (combine above below).

(** [binary_dilation(mask, iterations=n)]. *)
Fixpoint dilate_n (n : nat) (m : grid bool) : grid bool :=
  match n with
  | O => m
  | S k => dilate_n k (dilate m)
  end.

Definition map2g {A B C} (f : A -> B -> C) (g1 : grid A) (g2 : grid B)
  : grid C := map2 (map2 f) g1 g2.

(** The keep-mask of [remove_background]. *)
Definition keep_mask (img : grid rgb) : grid bool :=
  let gray := grid_map channel_mean img in
  let variance := variance_filter gray in
  let mask := map2g (fun v g => (Qgtb v 100 || Qltb g 200)%bool)
                    variance gray in
  dilate_n 3 mask.

Definition whiten (keep : bool) (p : rgb) : rgb :=
  let '(r, g, b) := p in
  ((if keep then r else 255), (if keep then g else 255),
   (if keep then b else 255)).

(** [remove_background(image)] for an RGB image; a missing numpy, PIL or
    scipy returns the image unchanged. *)
Definition remove_background (W : World) (image : grid rgb) : grid rgb :=
  if (numpy_available W && scipy_available W)%bool then
    map2g whiten (keep_mask image) image
  else image.

(* ------------------------------------------------------------------ *)
(** ** Coarse shape descriptor: [analyze_frame_shape] *)

Record ShapeInfo : Type := {
  aspect_ratio : Q;
  is_rectangular : bool;
  is_round : bool;
  horizontal_score : option Z;
  vertical_score : option Z
}.

(** The dictionary returned by the [except] branch. *)
Definition shape_failed : ShapeInfo :=
  {| aspect_ratio := 3 # 2; is_rectangular := false; is_round := false;
     horizontal_score := None; vertical_score := None |}.

(** [np.abs(np.diff(row))]. *)
Definition abs_diff (l : list Z) : list Z :=
  map2 (fun a b => Z.abs (b - a)) l (tl l).

(** Bounding box of a mask: first and last set row and column. *)
Definition bounding_box (mask : grid bool) : option (nat * nat * nat * nat) :=
  let rows := rows_any mask in
  let cols := cols_any mask in
  match first_true rows, last_true rows, first_true cols, last_true cols with
  | Some rmin, Some rmax, Some cmin, Some cmax => Some (rmin, rmax, cmin, cmax)
  | _, _, _, _ => None
  end.

Definition analyze_pixels (pixels : grid Z) : ShapeInfo :=
  let gx := map abs_diff pixels in
  let gy := map2 (map2 (fun a b => Z.abs (b - a))) pixels (tl pixels) in
  let threshold := 30 in
  let edge_x := grid_map (fun d => d >? threshold) gx in
  let edge_y := grid_map (fun d => d >? threshold) gy in
  let h := height pixels in
  let w := width pixels in
  let top_edges := count_true (flat (firstn (h / 3) edge_y)) in
  let bottom_edges := count_true (flat (skipn (2 * h / 3) edge_y)) in
  let left_edges := count_true (flat (map (firstn (w / 3)) edge_x)) in
  let right_edges := count_true (flat (map (skipn (2 * w / 3)) edge_x)) in
  let horizontal := top_edges + bottom_edges in
  let vertical := left_edges + right_edges in
  let dark_mask := grid_map (fun p => p <? 100) pixels in
  let aspect :=
    match bounding_box dark_mask with
    | Some (rmin, rmax, cmin, cmax) =>
        let height := Z.of_nat rmax - Z.of_nat rmin in
        let width := Z.of_nat cmax - Z.of_nat cmin in
        (inject_Z width / inject_Z (Z.max height 1))%Q
    | None => (3 # 2)%Q
    end in
  {| aspect_ratio := py_round aspect 2;
     is_rectangular :=
       (Qgtb aspect (16 # 10) &&
        Qgtb (inject_Z horizontal) (inject_Z vertical * (8 # 10)))%bool;
     is_round := Qltb aspect (14 # 10);
     horizontal_score := Some horizontal;
     vertical_score := Some vertical |}.

Definition analyze_frame_shape (W : World) (image : grid rgb) : ShapeInfo :=
  if numpy_available W then
    try_except
      (pixels <- resize_l W 100 100 (convert_l image) ;;
       Ret (analyze_pixels pixels))
      (fun _ => shape_failed)
  else shape_failed.

(* ------------------------------------------------------------------ *)
(** ** Property extractor: [extract_glasses_properties] *)

(** The order on integers, for the sort behind [np.median]. *)
Module ZOrder <: TotalLeBool.
Definition t : Type := Z.
Definition leb : t -> t -> bool := Z.leb.
Definition leb_total (a1 a2 : t) : leb a1 a2 = true \/ leb a2 a1 = true :=
  match Z.le_ge_cases a1 a2 with
  | or_introl H => or_introl (proj2 (Z.leb_le a1 a2) H)
  | or_intror H => or_intror (proj2 (Z.leb_le a2 a1) H)
  end.
End ZOrder.

Module ZSort := Sort ZOrder.

(** [np.median] of a non-empty flat integer array. *)
Definition np_median (l : list Z) : Q :=
  let s := ZSort.sort l in
  let n := Datatypes.length s in
  let lo := nth (n / 2 - 1) s 0 in
  let hi := nth (n / 2) s 0 in
  if Nat.even n then ((inject_Z lo + inject_Z hi) / 2)%Q else inject_Z hi.

Definition chan_r (p : rgb) : Z := fst (fst p).
Definition chan_g (p : rgb) : Z := snd (fst p).
Definition chan_b (p : rgb) : Z := snd p.

(** [f(a, axis=0).astype(int)] on an array of pixels. *)
Definition per_channel_int (f : list Z -> Q) (px : list rgb) : rgb :=
  (astype_int (f (map chan_r px)),
   astype_int (f (map chan_g px)),
   astype_int (f (map chan_b px))).

Definition mean_Z (l : list Z) : Q := np_mean (map inject_Z l).

Record Properties : Type := {
  lensColor : string;
  frameColor : string;
  tintOpacity : Q;
  frameScale : Q;
  frameMaterial : string;
  frameMetalness : Q
}.

Definition default_properties : Properties :=
  {| lensColor := "#3b82f6"; frameColor := "#1a1a1a"; tintOpacity := 1 # 2;
     frameScale := 1; frameMaterial := "plastic"; frameMetalness := 1 # 10 |}.

(** The three accumulators of the loop over the uploaded images. *)
Record Accum : Type := {
  all_lens_colors : list rgb;
  all_frame_colors : list rgb;
  all_frame_pixels : list rgb
}.

Definition accum_init : Accum :=
  {| all_lens_colors := []; all_frame_colors := []; all_frame_pixels := [] |}.

Definition dark_pixels_of (pixels_flat : list rgb) : list rgb :=
  filter (fun p => let b := channel_mean p in (Qgtb b 10 && Qltb b 100)%bool)
         pixels_flat.

Definition tint_pixels_of (center_pixels : list rgb) : list rgb :=
  filter (fun p => let b := channel_mean p in (Qgtb b 30 && Qltb b 200)%bool)
         center_pixels.

(** First half of the loop body: the frame samples. *)
Definition add_frame (acc : Accum) (pixels_flat : list rgb) : Accum :=
  let dark_pixels := dark_pixels_of pixels_flat in
  if len dark_pixels >? 10 then
    {| all_lens_colors := all_lens_colors acc;
       all_frame_colors :=
         all_frame_colors acc ++ [per_channel_int np_median dark_pixels];
       all_frame_pixels := all_frame_pixels acc ++ dark_pixels |}
  else acc.

(** Second half of the loop body: the lens samples. *)
Definition add_lens (acc : Accum) (center_pixels : list rgb) : Accum :=
  let tint_pixels := tint_pixels_of center_pixels in
  if len tint_pixels >? 5 then
    {| all_lens_colors :=
         all_lens_colors acc ++ [per_channel_int mean_Z tint_pixels];
       all_frame_colors := all_frame_colors acc;
       all_frame_pixels := all_frame_pixels acc |}
  else acc.

(** One iteration; an exception keeps what was appended before it. *)
Definition process_image (W : World) (acc : Accum) (img_path : string)
  : Accum :=
  match image_open W img_path with
  | Raise _ => acc
  | Ret img =>
      let width := width img in
      let height := height img in
      match resize_rgb W 100 100 img with
      | Raise _ => acc
      | Ret img_small =>
          let acc1 := add_frame acc (flat img_small) in
          let center_crop :=
            crop (width / 4) (height / 4) (3 * width / 4) (3 * height / 4)
                 img in
          match resize_rgb W 50 50 center_crop with
          | Raise _ => acc1
          | Ret center => add_lens acc1 (flat center)
          end
      end
  end.

(** [colorsys.rgb_to_hsv], saturation component. *)
Definition saturation (r g b : Q) : Q :=
  let maxc := Qmax r (Qmax g b) in
  let minc := Qmin r (Qmin g b) in
  if Qeq_bool minc maxc then 0%Q else ((maxc - minc) / maxc)%Q.

(** Material and metalness from the aggregated frame pixels. *)
Definition detect_material (W : World) (frame_pixels : list rgb)
  : string * Q :=
  let frame_pixels_array :=
    match frame_pixels with
    | [] => [(50, 50, 50)]
    | _ => frame_pixels
    end in
  if len frame_pixels_array >? 10 then
    let chan f := map (fun p => inject_Z (f p)) frame_pixels_array in
    let color_std :=
      [np_std W (chan chan_r); np_std W (chan chan_g); np_std W (chan chan_b)]
    in
    let avg_std := np_mean color_std in
    let brightness := map channel_mean frame_pixels_array in
    let brightness_std := np_std W brightness in
    let r := np_mean (chan chan_r) in
    let g := np_mean (chan chan_g) in
    let b := np_mean (chan chan_b) in
    let is_silver :=
      (Qgtb (np_mean brightness) 150 && Qltb (np_std W [r; g; b]) 20)%bool in
    let is_gold := (Qgtb r g && Qgtb g b && Qgtb brightness_std 30)%bool in
    if (is_silver || is_gold ||
        (Qltb avg_std 25 && Qgtb brightness_std 40))%bool
    then ("metal", if is_silver then (7 # 10)%Q else (1 # 2)%Q)
    else ("plastic", (1 # 10)%Q)
  else ("plastic", (1 # 10)%Q).

Definition extract_glasses_properties (W : World) (image_paths : list string)
  : Properties :=
  if negb (numpy_available W) then default_properties
  else
    let acc := fold_left (process_image W) image_paths accum_init in
    let '(frame_material, metalness) :=
      detect_material W (all_frame_pixels acc) in
    let frame_color :=
      match all_frame_colors acc with
      | [] => "#1a1a1a"
      | cs =>
          let '(r, g, b) := per_channel_int mean_Z cs in
          hex_color r g b
      end in
    let '(lens_color, tint_opacity) :=
      match all_lens_colors acc with
      | [] => ("#3b82f6", (1 # 2)%Q)
      | cs =>
          let '(r, g, b) := per_channel_int mean_Z cs in
          let s := saturation (inject_Z r / 255) (inject_Z g / 255)
                              (inject_Z b / 255) in
          (hex_color r g b,
           Qmin (85 # 100) (Qmax (25 # 100) (s * (1 # 2) + (3 # 10))))
      end in
    {| lensColor := lens_color;
       frameColor := frame_color;
       tintOpacity := py_round tint_opacity 2;
       frameScale := 1;
       frameMaterial := frame_material;
       frameMetalness := py_round metalness 2 |}.

(* ------------------------------------------------------------------ *)
(** ** Categorical shape detector: [detect_glasses_shape] *)

(** The decision tree at the end of the loop body. *)
Definition classify_shape (aspect_ratio fill_ratio circularity : Q) : string :=
  if (Qgtb circularity (15 # 10) ||
      (Qltb aspect_ratio (15 # 10) && Qltb fill_ratio (5 # 10)))%bool
  then "round"
  else if Qgtb aspect_ratio (25 # 10) then "aviator"
  else if Qgtb aspect_ratio (18 # 10) then
    if Qgtb fill_ratio (6 # 10) then "wayfarer" else "sport"
  else if Qgtb aspect_ratio (13 # 10) then
    if Qgtb fill_ratio (7 # 10) then "square" else "cat_eye"
  else
    if Qgtb fill_ratio (75 # 100) then "round" else "round".

(** [aspect_ratio], [fill_ratio] and [circularity] of the dark region. *)
Definition region_measures (dark_mask : grid bool)
           (rmin rmax cmin cmax : nat) : Q * Q * Q :=
  let bh := (rmax - rmin)%nat in
  let bw := (cmax - cmin)%nat in
  let aspect_ratio :=
    (inject_Z (Z.of_nat bw) / inject_Z (Z.of_nat bh))%Q in
  let region := slice2 rmin rmax cmin cmax dark_mask in
  let total_pixels := len (flat region) in
  let dark_pixels := count_true (flat region) in
  let fill_ratio :=
    if total_pixels >? 0
    then (inject_Z dark_pixels / inject_Z total_pixels)%Q else 0%Q in
  let h := height region in
  let w := width region in
  let circularity :=
    if (Nat.ltb 10 h && Nat.ltb 10 w)%bool then
      let corner_size := (Nat.min h w / 4)%nat in
      let corners :=
        [ map (firstn corner_size) (firstn corner_size region);
          map (last_n corner_size) (firstn corner_size region);
          map (firstn corner_size) (last_n corner_size region);
          map (last_n corner_size) (last_n corner_size region) ] in
      let corner_fill := np_mean (map mean_bool corners) in
      let center_region :=
        slice2 (h / 4) (3 * h / 4) (w / 4) (3 * w / 4) region in
      let center_fill :=
        if len (flat center_region) >? 0 then mean_bool center_region
        else 0%Q in
      (center_fill / (corner_fill + (1 # 100)))%Q
    else 1%Q in
  (aspect_ratio, fill_ratio, circularity).

(** The body of the loop for one decoded image: [None] is [continue]. *)
Definition detect_one (pixels : grid Z) : option string :=
  let mean_val := np_mean (map inject_Z (flat pixels)) in
  let threshold := Qmin (mean_val * (8 # 10)) 180 in
  let dark_mask := grid_map (fun p => Qltb (inject_Z p) threshold) pixels in
  if negb (existsb (fun b => b) (flat dark_mask)) then None
  else
    match bounding_box dark_mask with
    | None => None
    | Some (rmin, rmax, cmin, cmax) =>
        if (Nat.eqb (rmax - rmin) 0 || Nat.eqb (cmax - cmin) 0)%bool then None
        else
          let '(aspect_ratio, fill_ratio, circularity) :=
            region_measures dark_mask rmin rmax cmin cmax in
          Some (classify_shape aspect_ratio fill_ratio circularity)
    end.

(** The loop over the uploaded images; no [try] inside it, so the first
    image that fails to open aborts the loop. *)
Fixpoint detect_loop (W : World) (image_paths : list string)
         (shapes_detected : list string) : outcome (list string) :=
  match image_paths with
  | [] => Ret shapes_detected
  | img_path :: rest =>
      img <- image_open W img_path ;;
      pixels <- resize_l W 200 200 (convert_l img) ;;
      detect_loop W rest
        match detect_one pixels with
        | Some shape => shapes_detected ++ [shape]
        | None => shapes_detected
        end
  end.

Fixpoint count_add (s : string) (c : list (string * nat))
  : list (string * nat) :=
  match c with
  | [] => [(s, 1%nat)]
  | (k, n) :: c' =>
      if String.eqb k s then (k, S n) :: c' else (k, n) :: count_add s c'
  end.

(** [collections.Counter(l)], keys in first-insertion order. *)
Definition Counter (l : list string) : list (string * nat) :=
  fold_left (fun c s => count_add s c) l [].

(** [c.most_common(1)[0][0]]: the first key of maximal count. *)
Definition most_common (c : list (string * nat)) : option string :=
  option_map fst
    (fold_left
       (fun best kv =>
          match best with
          | None => Some kv
          | Some (_, n) => if Nat.ltb n (snd kv) then Some kv else best
          end) c None).

Definition detect_glasses_shape (W : World) (image_paths : list string)
  : string :=
  if numpy_available W then
    try_except
      (shapes_detected <- detect_loop W image_paths [] ;;
       Ret match most_common (Counter shapes_detected) with
           | Some result => result
           | None => "round"
           end)
      (fun _ => "round")
  else "round".

(* ------------------------------------------------------------------ *)
(** ** Result records *)

Inductive value : Type :=
| VStr (s : string)
| VNum (q : Q)
| VBool (b : bool)
| VNull.

(** A Python dictionary with string keys, in insertion order. *)
Definition dict : Type := list (string * value).

Fixpoint get (d : dict) (k : string) : option value :=
  match d with
  | [] => None
  | (k', v) :: d' => if String.eqb k' k then Some v else get d' k
  end.

Definition has_key (d : dict) (k : string) : bool :=
  match get d k with Some _ => true | None => false end.

(** The entries merged by [**properties]. *)
Definition properties_dict (p : Properties) : dict :=
  [ ("lensColor", VStr (lensColor p));
    ("frameColor", VStr (frameColor p));
    ("tintOpacity", VNum (tintOpacity p));
    ("frameScale", VNum (frameScale p));
    ("frameMaterial", VStr (frameMaterial p));
    ("frameMetalness", VNum (frameMetalness p)) ].

(* ------------------------------------------------------------------ *)
(** ** Shape-keyword fallback: [match_by_shape] *)

Definition SHAPE_KEYWORDS : list (string * list string) :=
  [ ("round", ["round"; "circular"; "circle"; "oval"; "metal_round";
               "lennon"; "vintage"; "retro"; "classic"]);
    ("square", ["square"; "rectangular"; "rectangle"; "box"; "wayfarer";
                "nerd"; "hipster"]);
    ("cat_eye", ["cat_eye"; "cat-eye"; "cateye"; "cat"]);
    ("aviator", ["aviator"; "pilot"; "teardrop"; "ray_ban"; "rayban"]);
    ("wayfarer", ["wayfarer"; "classic"; "black_glasses"]);
    ("oversized", ["oversized"; "big"; "large"; "xl"]);
    ("rimless", ["rimless"; "frameless"; "minimal"]);
    ("sport", ["sport"; "athletic"; "wrap"; "shield"; "oakley"]);
    ("vintage", ["vintage"; "retro"; "old"; "prada"]);
    ("futuristic", ["futuristic"; "modern"; "cyber"; "tech"; "vr"]);
    ("heart", ["heart"; "love"]);
    ("geometric", ["geometric"; "hexagon"; "octagon"; "polygon"]) ].

Fixpoint assoc {A} (k : string) (l : list (string * A)) : option A :=
  match l with
  | [] => None
  | (k', v) :: l' => if String.eqb k' k then Some v else assoc k l'
  end.

(** [SHAPE_KEYWORDS.get(shape, [shape])]. *)
Definition keywords_for (shape : string) : list string :=
  match assoc shape SHAPE_KEYWORDS with
  | Some kws => kws
  | None => [shape]
  end.

Definition get_models_from_file (W : World) : list string :=
  match models_cache W with
  | Some models => models
  | None => []
  end.

(** Any of the keywords occurs in the lower-cased name. *)
Definition any_keyword (kws : list string) (name : string) : bool :=
  existsb (fun kw => contains kw (lower name)) kws.

Definition is_glasses_model (m : string) : bool :=
  (contains "glasses" (lower m) || contains "spectacle" (lower m)
   || contains "eyewear" (lower m))%bool.

(** The selection of [match_by_shape] once the shape and a non-empty model
    list are known. *)
Definition select_model (detected_shape : string) (models : list string)
  : string :=
  let shape_keywords := keywords_for detected_shape in
  let matching_models := filter (any_keyword shape_keywords) models in
  let matching_models :=
    match matching_models with
    | [] =>
        match filter is_glasses_model models with
        | [] => firstn 10 models
        | glasses_models => firstn 10 glasses_models
        end
    | _ => matching_models
    end in
  match matching_models with
  | m :: _ => m
  | [] => hd "" models
  end.

(** [AVAILABLE_MODELS if AVAILABLE_MODELS else get_models_from_file()]. *)
Definition models_of (W : World) : list string :=
  match AVAILABLE_MODELS W with
  | [] => get_models_from_file W
  | ms => ms
  end.

Definition match_by_shape (W : World) (image_paths : list string)
           (properties : Properties) : option dict :=
  let detected_shape := detect_glasses_shape W image_paths in
  let models := models_of W in
  match models with
  | [] => None
  | _ =>
      let best_model := select_model detected_shape models in
      Some ([ ("best_model", VStr best_model);
              ("confidence",
               VNum (if negb (String.eqb detected_shape "classic")
                     then 3 # 4 else 1 # 2)%Q);
              ("source_image", VStr "shape_detection");
              ("matched", VBool true);
              ("method", VStr "shape_match");
              ("detected_shape", VStr detected_shape) ]
            ++ properties_dict properties)
  end.

(* ------------------------------------------------------------------ *)
(** ** Reference directory and the generic fallback: [simple_match] *)

(** The order on strings, for [sorted]. *)
Module StringOrder <: TotalLeBool.
Definition t : Type := string.
Definition leb : t -> t -> bool := String.leb.
Definition leb_total (a1 a2 : t) : leb a1 a2 = true \/ leb a2 a1 = true :=
  String.leb_total a1 a2.
End StringOrder.

Module StringSort := Sort StringOrder.

Definition REF_DIR : string := "reference_images".

Definition image_exts : list string := [".jpg"; ".jpeg"; ".png"; ".webp"].

Definition list_refs (W : World) : outcome (list string) :=
  match reference_images W with
  | NotADirectory => Ret []
  | ListingFails e => Raise e
  | Listing names =>
      Ret (StringSort.sort
             (filter (fun f => existsb (String.eqb (snd (splitext (lower f))))
                                       image_exts)
                     names))
  end.

Definition simple_match (W : World) (image_paths : list string)
  : outcome dict :=
  refs <- list_refs W ;;
  let properties :=
    match image_paths with
    | [] => default_properties
    | _ => extract_glasses_properties W image_paths
    end in
  let generic :=
    match refs with
    | ref0 :: _ =>
        [ ("best_model", VStr (fst (splitext ref0) ++ ".glb"));
          ("confidence", VNum (3 # 5));
          ("source_image", VStr ref0);
          ("matched", VBool true);
          ("method", VStr "fallback") ] ++ properties_dict properties
    | [] =>
        [ ("best_model", VStr "default.glb");
          ("confidence", VNum (1 # 2));
          ("source_image", VStr "none");
          ("matched", VBool true);
          ("method", VStr "default") ] ++ properties_dict properties
    end in
  match image_paths with
  | [] => Ret generic
  | _ =>
      match match_by_shape W image_paths properties with
      | Some shape_result => Ret shape_result
      | None => Ret generic
      end
  end.

(* ------------------------------------------------------------------ *)
(** ** Content validation gate: [validate_glasses_image] *)

Definition glasses_prompts : list string :=
  [ "a photo of eyeglasses"; "a photo of sunglasses";
    "a photo of spectacles"; "a photo of reading glasses";
    "a photo of prescription glasses"; "a photo of eyewear";
    "a photo of optical frames" ].

Definition non_glasses_prompts : list string :=
  [ "a photo of a person"; "a photo of a face"; "a photo of food";
    "a photo of an animal"; "a photo of a cat"; "a photo of a dog";
    "a photo of a phone"; "a photo of a car"; "a photo of a building";
    "a photo of nature"; "a photo of clothing"; "a photo of shoes";
    "a photo of a watch"; "a photo of text or document";
    "a photo of furniture"; "a photo of electronics" ].

Definition all_prompts : list string := glasses_prompts ++ non_glasses_prompts.

(** [sum(probs[i].item() for i in range(lo, hi))]; an index past the end
    raises. *)
Fixpoint prob_sum (probs : list Q) (idx : list nat) (acc : Q) : outcome Q :=
  match idx with
  | [] => Ret acc
  | i :: idx' =>
      match nth_error probs i with
      | Some p => prob_sum probs idx' (Qred (acc + p))
      | None => Raise "IndexError"
      end
  end.

(** The two class scores of one image. *)
Definition score_image (c : Clip) (img : grid rgb) : outcome (Q * Q) :=
  probs <- clip_probs c img ;;
  let ng := Datatypes.length glasses_prompts in
  glasses_prob <- prob_sum probs (seq 0 ng) 0%Q ;;
  non_glasses_prob <-
    prob_sum probs (seq ng (Datatypes.length all_prompts - ng)) 0%Q ;;
  Ret (glasses_prob, non_glasses_prob).

Fixpoint score_images (c : Clip) (images : list (grid rgb))
  : outcome (list (Q * Q)) :=
  match images with
  | [] => Ret []
  | img :: rest =>
      s <- score_image c img ;;
      ss <- score_images c rest ;;
      Ret (s :: ss)
  end.

(** The images that load; the others are skipped. *)
Fixpoint load_images (W : World) (image_paths : list string)
  : list (grid rgb) :=
  match image_paths with
  | [] => []
  | path :: rest =>
      match image_open W path with
      | Ret img => img :: load_images W rest
      | Raise _ => load_images W rest
      end
  end.

Definition MIN_GLASSES_THRESHOLD : Q := 25 # 100.

(** The decision on the two averages. *)
Definition decide_valid (avg_glasses_score avg_non_glasses_score : Q)
  : bool * Q * option string :=
  let is_valid :=
    (Qgtb avg_glasses_score avg_non_glasses_score &&
     Qgeb avg_glasses_score MIN_GLASSES_THRESHOLD)%bool in
  let confidence := avg_glasses_score in
  let rejection_reason :=
    if negb is_valid then
      if Qltb avg_glasses_score MIN_GLASSES_THRESHOLD then
        Some ("Image does not appear to be eyeglasses (confidence: "
              ++ fmt_pct1 avg_glasses_score ++ ")")%string
      else
        Some ("Image appears to be something other than glasses (glasses: "
              ++ fmt_pct1 avg_glasses_score ++ ", other: "
              ++ fmt_pct1 avg_non_glasses_score ++ ")")%string
    else None in
  (is_valid, confidence, rejection_reason).

(** The averages of the two score lists. *)
Definition average_scores (scores : list (Q * Q)) : Q * Q :=
  (np_mean (map fst scores), np_mean (map snd scores)).

Definition validate_glasses_image (W : World) (image_paths : list string)
  : bool * Q * option string :=
  match clip W with
  | None => (true, 1%Q, None)
  | Some c =>
      let images := load_images W image_paths in
      match images with
      | [] => (false, 0%Q, Some "Could not load any images")
      | _ =>
          try_except
            (scores <- score_images c images ;;
             let '(avg_glasses_score, avg_non_glasses_score) :=
               average_scores scores in
             Ret (decide_valid avg_glasses_score avg_non_glasses_score))
            (fun _ => (true, 1%Q, None))
      end
  end.

(* ------------------------------------------------------------------ *)
(** ** Offline index: [build_embeddings] *)

(** [[f(x) for x in l]] where [f] may raise. *)
Fixpoint mapM {A B} (f : A -> outcome B) (l : list A) : outcome (list B) :=
  match l with
  | [] => Ret []
  | a :: l' =>
      b <- f a ;;
      bs <- mapM f l' ;;
      Ret (b :: bs)
  end.

Definition build_embeddings (W : World) : outcome bool :=
  match clip W with
  | None => Ret false
  | Some c =>
      refs <- list_refs W ;;
      match refs with
      | [] => Ret false
      | _ =>
          let ref_paths := map (fun f => REF_DIR ++ "/" ++ f)%string refs in
          Ret (try_except
                 (ref_imgs <- mapM (image_open W) ref_paths ;;
                  _ <- clip_build c ref_imgs ;;
                  Ret true)
                 (fun _ => false))
      end
  end.

(* ------------------------------------------------------------------ *)
(** ** Embedding matcher: [clip_match] *)

Definition rectangular_keywords : list string :=
  [ "rayban"; "ray_ban"; "wayfarer"; "black_glasses"; "rectangular";
    "square"; "nerd"; "hipster"; "reading" ].

Definition round_keywords : list string :=
  [ "round"; "circle"; "metal_round"; "lennon"; "vintage" ].

Fixpoint set_nth {A} (i : nat) (x : A) (l : list A) : list A :=
  match l, i with
  | [], _ => []
  | _ :: l', O => x :: l'
  | a :: l', S j => a :: set_nth j x l'
  end.

(** [t[i] += d] on a one-dimensional tensor. *)
Definition bump (i : nat) (d : Q) (t : list Q) : outcome (list Q) :=
  match nth_error t i with
  | Some x => Ret (set_nth i (Qred (x + d)) t)
  | None => Raise "IndexError"
  end.

(** The body of the boost loop for entry [i]. *)
Definition boost_entry (uploaded_shape : ShapeInfo) (i : nat)
           (ref_name : string) (sims_boosted : list Q) : outcome (list Q) :=
  if is_rectangular uploaded_shape then
    s1 <- (if any_keyword rectangular_keywords ref_name
           then bump i (15 # 100) sims_boosted else Ret sims_boosted) ;;
    if any_keyword round_keywords ref_name
    then bump i (- (1 # 10)) s1 else Ret s1
  else if is_round uploaded_shape then
    s1 <- (if any_keyword round_keywords ref_name
           then bump i (15 # 100) sims_boosted else Ret sims_boosted) ;;
    if any_keyword rectangular_keywords ref_name
    then bump i (- (1 # 10)) s1 else Ret s1
  else Ret sims_boosted.

(** [for i, ref_name in enumerate(ref_filenames)], from index [i]. *)
Fixpoint boost_loop (uploaded_shape : ShapeInfo) (i : nat)
         (ref_filenames : list string) (sims_boosted : list Q)
  : outcome (list Q) :=
  match ref_filenames with
  | [] => Ret sims_boosted
  | ref_name :: rest =>
      s <- boost_entry uploaded_shape i ref_name sims_boosted ;;
      boost_loop uploaded_shape (S i) rest s
  end.

(** Index and value of the first maximum of a non-empty tensor, scanning
    from position [i] with the best so far. *)
Fixpoint argmax_from (i : nat) (best : nat * Q) (t : list Q) : nat :=
  match t with
  | [] => fst best
  | x :: t' =>
      argmax_from (S i) (if Qltb (snd best) x then (i, x) else best) t'
  end.

(** [int(torch.argmax(t).item())]. *)
Definition argmax (t : list Q) : outcome nat :=
  match t with
  | [] => Raise "RuntimeError"
  | x :: t' => Ret (argmax_from 1 (O, x) t')
  end.

(** [l[i]]. *)
Definition index_of {A} (l : list A) (i : nat) : outcome A :=
  match nth_error l i with
  | Some a => Ret a
  | None => Raise "IndexError"
  end.

(** The [try] block of [clip_match]. *)
Definition embedding_match (W : World) (c : Clip)
           (ref_filenames : list string) (image_paths : list string)
  : outcome dict :=
  up_imgs <- mapM (fun p => img <- image_open W p ;;
                            Ret (remove_background W img)) image_paths ;;
  sims <- clip_sims c up_imgs ;;
  first <- index_of up_imgs 0 ;;
  let uploaded_shape := analyze_frame_shape W first in
  sims_boosted <- boost_loop uploaded_shape 0 ref_filenames sims ;;
  best_idx <- argmax sims_boosted ;;
  best_score <- index_of sims best_idx ;;
  best_ref <- index_of ref_filenames best_idx ;;
  let base := fst (splitext best_ref) in
  let confidence := ((best_score + 1) / 2)%Q in
  let properties := extract_glasses_properties W image_paths in
  Ret ([ ("best_model", VStr (base ++ ".glb"));
         ("confidence", VNum (py_round confidence 3));
         ("source_image", VStr best_ref);
         ("matched", VBool true);
         ("method", VStr "clip_cached") ] ++ properties_dict properties).

Definition opt_str (s : option string) : value :=
  match s with
  | Some x => VStr x
  | None => VNull
  end.

Definition clip_match (W : World) (image_paths : list string) : outcome dict :=
  let '(is_valid, validation_confidence, rejection_reason) :=
    validate_glasses_image W image_paths in
  if negb is_valid then
    Ret [ ("error", opt_str rejection_reason);
          ("matched", VBool false);
          ("method", VStr "validation_rejected");
          ("validation_confidence", VNum (py_round validation_confidence 3)) ]
  else
    match clip W with
    | None => simple_match W image_paths
    | Some c =>
        match embeddings_file W with
        | Cached ref_filenames =>
            match embedding_match W c ref_filenames image_paths with
            | Ret result => Ret result
            | Raise _ => simple_match W image_paths
            end
        | NoCacheFile | BadCacheFile =>
            _ <- list_refs W ;;
            simple_match W image_paths
        end
    end.

(* ------------------------------------------------------------------ *)
(** ** Process boundary: [main] and the [__main__] block *)

(** What [main] prints on stdout. *)
Definition main (W : World) (argv : list string) : outcome dict :=
  if existsb (String.eqb "--build") argv then
    success <- build_embeddings W ;;
    Ret [ ("ok", VBool success) ]
  else
    let images := filter (fun a => negb (startswith a "--")) (tl argv) in
    match images with
    | [] => Ret [ ("error", VStr "No images"); ("matched", VBool false) ]
    | _ => clip_match W images
    end.

(** The script: [main] under the outermost handler. *)
Definition script (W : World) (argv : list string) : dict :=
  try_except (main W argv)
    (fun e => [ ("error", VStr e); ("matched", VBool false);
                ("method", VStr "crash_handler") ]).

(* ------------------------------------------------------------------ *)
(** ** The decision tree as the specification words it *)

(** The five numbered rules of the decision tree. *)
Inductive rule : Type := Rule1 | Rule2 | Rule3 | Rule4 | Rule5.

(** The guard of each rule. *)
Definition rule_guard (r : rule) (aspect_ratio fill_ratio circularity : Q)
  : Prop :=
  match r with
  | Rule1 => (15 # 10 < circularity \/
              (aspect_ratio < 15 # 10 /\ fill_ratio < 5 # 10))%Q
  | Rule2 => (25 # 10 < aspect_ratio)%Q
  | Rule3 => (18 # 10 < aspect_ratio)%Q
  | Rule4 => (13 # 10 < aspect_ratio)%Q
  | Rule5 => True
  end.

(** The category a rule assigns. *)
Definition rule_category (r : rule) (fill_ratio : Q) (category : string)
  : Prop :=
  match r with
  | Rule1 => category = "round"
  | Rule2 => category = "aviator"
  | Rule3 => ((6 # 10 < fill_ratio)%Q /\ category = "wayfarer") \/
             (~ (6 # 10 < fill_ratio)%Q /\ category = "sport")
  | Rule4 => ((7 # 10 < fill_ratio)%Q /\ category = "square") \/
             (~ (7 # 10 < fill_ratio)%Q /\ category = "cat_eye")
  | Rule5 => category = "round"
  end.

Definition rules_before (r : rule) : list rule :=
  match r with
  | Rule1 => []
  | Rule2 => [Rule1]
  | Rule3 => [Rule1; Rule2]
  | Rule4 => [Rule1; Rule2; Rule3]
  | Rule5 => [Rule1; Rule2; Rule3; Rule4]
  end.

(** Evaluation in order, first match wins. *)
Definition first_match (r : rule) (aspect_ratio fill_ratio circularity : Q)
  : Prop :=
  rule_guard r aspect_ratio fill_ratio circularity /\
  forall r', In r' (rules_before r) ->
             ~ rule_guard r' aspect_ratio fill_ratio circularity.

(** The labels the detector can produce. *)
Definition detectable_shapes : list string :=
  ["round"; "aviator"; "wayfarer"; "sport"; "square"; "cat_eye"].

(* ------------------------------------------------------------------ *)
(** ** The frame colour as the specification words it *)





(* ------------------------------------------------------------------ *)
(** ** Concrete environments *)

(** Nearest-neighbour resampling, standing for PIL's filter in the
    concrete environments (whose images already have the target size). *)
Definition nearest {A} (d : A) (w h : nat) (g : grid A) : outcome (grid A) :=
  let gh := Z.of_nat (height g) in
  let gw := Z.of_nat (width g) in
  Ret (map (fun i => map (fun j =>
              at2 d g (i * gh / Z.of_nat h) (j * gw / Z.of_nat w))
            (indices w)) (indices h)).

(** Square root to three decimals, standing for [np.std]. *)
Definition std3 (l : list Q) : Q :=
  Qred (inject_Z (Z.sqrt (Qfloor (np_var l * 1000000))) / 1000).

(** An environment without CLIP, caches or reference images, whose files
    are given by [files]. *)
Definition bare_world (files : string -> outcome (grid rgb)) : World :=
  {| image_open := files;
     resample_rgb := nearest (0, 0, 0);
     resample_l := nearest 0;
     numpy_available := true;
     scipy_available := true;
     np_std := std3;
     clip := None;
     embeddings_file := NoCacheFile;
     reference_images := NotADirectory;
     AVAILABLE_MODELS := [];
     models_cache := None |}.

Definition gray_px (v : Z) : rgb := (v, v, v).

(** A [w] x [h] image painted by [f row column]. *)
Definition paint (w h : nat) (f : Z -> Z -> rgb) : grid rgb :=
  map (fun i => map (f i) (indices w)) (indices h).

Definition uniform_image (w h : nat) (v : Z) : grid rgb :=
  paint w h (fun _ _ => gray_px v).

Definition one_file (name : string) (img : grid rgb) (path : string)
  : outcome (grid rgb) :=
  if String.eqb path name then Ret img else Raise "FileNotFoundError".

(** A 100x100 photo, uniform mid-gray. *)
Definition mid_gray_world : World :=
  bare_world (one_file "gray.png" (uniform_image 100 100 128)).




(** A 200x200 photo: a black bar of 21 rows and 101 columns on white. *)
Definition bar_image : grid rgb :=
  paint 200 200 (fun i j =>
    if ((90 <=? i) && (i <=? 110) && (50 <=? j) && (j <=? 150))%bool
    then gray_px 0 else gray_px 255).

Definition catalog3 : list string :=
  ["round_black.glb"; "aviator_gold.glb"; "wayfarer_blue.glb"].

Definition bar_world : World :=
  {| image_open := one_file "upload.jpg" bar_image;
     resample_rgb := nearest (0, 0, 0);
     resample_l := nearest 0;
     numpy_available := true;
     scipy_available := true;
     np_std := std3;
     clip := None;
     embeddings_file := NoCacheFile;
     reference_images := NotADirectory;
     AVAILABLE_MODELS := catalog3;
     models_cache := None |}.

(** *** Environments with a CLIP model *)

(** A CLIP model whose classifier answers [probs] for every image. *)
Definition constant_clip (probs : outcome (list Q)) (sims : outcome (list Q))
  : Clip :=
  {| clip_probs := fun _ => probs;
     clip_sims := fun _ => sims;
     clip_build := fun _ => Ret tt |}.

(** Probabilities over the 23 prompts: [g] on the first glasses prompt,
    the rest on the first non-glasses prompt. *)
Definition two_class_probs (g : Q) : list Q :=
  [g] ++ repeat 0%Q 6 ++ [(1 - g)%Q] ++ repeat 0%Q 15.

Definition with_clip (c : Clip) (cache : cache_file) (W : World) : World :=
  {| image_open := image_open W;
     resample_rgb := resample_rgb W;
     resample_l := resample_l W;
     numpy_available := numpy_available W;
     scipy_available := scipy_available W;
     np_std := np_std W;
     clip := Some c;
     embeddings_file := cache;
     reference_images := reference_images W;
     AVAILABLE_MODELS := AVAILABLE_MODELS W;
     models_cache := models_cache W |}.

(** The mid-gray photo under a classifier that gives glasses 10%. *)
Definition low_score_world : World :=
  with_clip (constant_clip (Ret (two_class_probs (1 # 10))) (Raise "unused"))
            NoCacheFile mid_gray_world.

(** The mid-gray photo under a classifier that raises. *)
Definition broken_clip_world : World :=
  with_clip (constant_clip (Raise "RuntimeError") (Raise "unused"))
            NoCacheFile mid_gray_world.

(* ------------------------------------------------------------------ *)
(** ** The shape boost as the specification words it *)


(** [i] is the first position of the maximum of [t]. *)
Definition first_max (t : list Q) (i : nat) : Prop :=
  exists top,
    nth_error t i = Some top /\
    (forall j y, nth_error t j = Some y -> (y <= top)%Q) /\
    (forall j y, (j < i)%nat -> nth_error t j = Some y -> (y < top)%Q).

(* ------------------------------------------------------------------ *)
(** ** Concrete environments on the embedding path *)

(** An environment on the embedding path: CLIP loaded, a cached index of
    two entries whose similarities to every upload are 0.50 and 0.45, the
    classifier 90% sure of glasses, and one uploaded file. *)
Definition matching_world (scipy : bool) (img : grid rgb) : World :=
  {| image_open := one_file "upload.jpg" img;
     resample_rgb := nearest (0, 0, 0);
     resample_l := nearest 0;
     numpy_available := true;
     scipy_available := scipy;
     np_std := std3;
     clip := Some (constant_clip (Ret (two_class_probs (9 # 10)))
                                 (Ret [(1 # 2)%Q; (45 # 100)%Q]));
     embeddings_file := Cached ["round_a.jpg"; "square_b.jpg"];
     reference_images := Listing ["round_a.jpg"; "square_b.jpg"];
     AVAILABLE_MODELS := [];
     models_cache := None |}.

(** A 100x100 photo: a black band over the full width, rows 30 to 70. *)
Definition band_image : grid rgb :=
  paint 100 100 (fun i _ =>
    if ((30 <=? i) && (i <=? 70))%bool then gray_px 0 else gray_px 255).


(* ------------------------------------------------------------------ *)
(** ** The output contract as the specification words it *)

Definition required_keys : list string :=
  ["best_model"; "confidence"; "source_image"; "matched"; "method"].

(** A complete MatchResult holds every required key. *)
Definition complete_match_result (d : dict) : bool :=
  forallb (has_key d) required_keys.

(** *** An environment that makes [simple_match] raise *)

(** An environment whose reference directory cannot be listed. *)
Definition unreadable_refs_world : World :=
  {| image_open := one_file "gray.png" (uniform_image 100 100 128);
     resample_rgb := nearest (0, 0, 0);
     resample_l := nearest 0;
     numpy_available := true;
     scipy_available := true;
     np_std := std3;
     clip := None;
     embeddings_file := NoCacheFile;
     reference_images := ListingFails "PermissionError";
     AVAILABLE_MODELS := [];
     models_cache := None |}.

(** The shapes of a printed record: a match, or an explicit error. *)
Definition matched_record (d : dict) : Prop :=
  get d "matched" = Some (VBool true) /\
  complete_match_result d = true /\
  has_key d "error" = false.

Definition error_record (d : dict) : Prop :=
  get d "matched" = Some (VBool false) /\
  (exists msg, get d "error" = Some (VStr msg)) /\
  has_key d "best_model" = false /\
  has_key d "confidence" = false /\
  has_key d "source_image" = false.

(* ------------------------------------------------------------------ *)
(** ** The stages of the embedding matcher *)






(* ------------------------------------------------------------------ *)
(** ** Vocabulary for the further properties *)

(** The path opens as an image. *)
Definition opens (W : World) (path : string) : bool :=
  match image_open W path with
  | Ret _ => true
  | Raise _ => false
  end.

(** The count a counter holds for a key, 0 when the key is absent. *)
Definition counted (c : list (string * nat)) (k : string) : nat :=
  match assoc k c with
  | Some n => n
  | None => O
  end.

(** A grid of [h] rows of [w] entries each. *)
Definition rect {A} (h w : nat) (g : grid A) : Prop :=
  Datatypes.length g = h /\ Forall (fun row => Datatypes.length row = w) g.

(** The entry in row [i] and column [j], if the grid has one. *)
Definition px {A} (g : grid A) (i j : nat) : option A :=
  match nth_error g i with
  | Some row => nth_error row j
  | None => None
  end.

(* ------------------------------------------------------------------ *)
(** ** The thumbnail generator (backend/render_thumbnails.py)

    The generator feeds the matcher: it renders one image per model of
    the bucket into [reference_images]. Its selection logic works on the
    keys of two bucket listings; a listing that fails is [Raise]. *)

(** [s.endswith(suffix)]. *)
Definition endswith (s suffix : string) : bool :=
  let n := String.length s in
  let k := String.length suffix in
  (Nat.leb k n && String.eqb (substring (n - k) k s) suffix)%bool.

(** [os.path.basename] (posix). *)
Definition basename (p : string) : string :=
  match rfind "/" p with
  | Some i => substring (S i) (String.length p - S i) p
  | None => p
  end.

(** [key in the listing] passes the filter of [list_glb_models]. *)
Definition is_glb_model (key : string) : bool :=
  if endswith (lower key) ".glb" then
    (negb (contains "man" (lower key)) &&
     negb (contains "woman" (lower key)) &&
     negb (contains "person" (lower key)))%bool
  else false.

(** [list_glb_models], on the keys of the bucket listing. *)
Definition list_glb_models (listing : outcome (list string))
  : outcome (list string) :=
  keys <- listing ;;
  Ret (filter is_glb_model keys).

(** [os.path.splitext(os.path.basename(key))[0]]. *)
Definition thumb_base (key : string) : string :=
  fst (splitext (basename key)).

(** [list_existing_thumbnails], on the keys listed under the prefix
    [reference_images/]; any failure gives the empty list. *)
Definition list_existing_thumbnails (listing : outcome (list string))
  : list string :=
  try_except
    (keys <- listing ;;
     Ret (map thumb_base
              (filter (fun key =>
                         existsb (endswith (lower key))
                                 [".jpg"; ".jpeg"; ".png"])
                      keys)))
    (fun _ => []).

(** The key under which the thumbnail of a model is uploaded. *)
Definition thumbnail_key (model_key : string) : string :=
  ("reference_images/" ++ thumb_base model_key ++ ".png")%string.

(** [to_process] of the generator's [main]: the models without a
    thumbnail. *)
Definition to_process (objects thumbnails : outcome (list string))
  : outcome (list string) :=
  models <- list_glb_models objects ;;
  let existing := list_existing_thumbnails thumbnails in
  Ret (filter (fun m => negb (existsb (String.eqb (thumb_base m)) existing))
              models).

(** A character other than the dot. *)
Definition not_dot (a : ascii) : bool := negb (Ascii.eqb a ".").

(** An environment whose reference directory holds generated thumbnails
    beside another file. *)
Definition generated_refs_world : World :=
  {| image_open := fun _ => Raise "FileNotFoundError";
     resample_rgb := nearest (0, 0, 0);
     resample_l := nearest 0;
     numpy_available := true;
     scipy_available := true;
     np_std := std3;
     clip := None;
     embeddings_file := NoCacheFile;
     reference_images := Listing ["round_01.png"; "notes.txt";
                                  "ray.ban_01.png"];
     AVAILABLE_MODELS := [];
     models_cache := None |}.

(** What the rendering loop of the generator obtains from outside, at
    iteration [i]: the download, the two renderers, the file system and
    the upload. *)
Record Generator : Type := {
  download_model : nat -> string -> outcome string;
  use_trimesh : bool;
  render_thumbnail_trimesh : nat -> string -> string -> bool;
  create_placeholder_thumbnail : nat -> string -> string -> bool;
  path_exists : nat -> string -> bool;
  upload_thumbnail : nat -> string -> string -> outcome unit;
  os_remove : nat -> string -> outcome unit
}.

(** The cleanup at the end of the [try] block; an error of [os.remove]
    reaches the handler of the iteration, which counts a failure. *)
Definition cleanup (G : Generator) (i : nat) (local_glb : string)
           (counts : nat * nat) : nat * nat :=
  if path_exists G i local_glb then
    match os_remove G i local_glb with
    | Ret _ => counts
    | Raise _ => (fst counts, S (snd counts))
    end
  else counts.

(** One iteration of [for i, model_key in enumerate(to_process)], on the
    counters [(processed, failed)]. *)
Definition render_one (G : Generator) (i : nat) (model_key : string)
           (counts : nat * nat) : nat * nat :=
  let '(processed, failed) := counts in
  let base_name := thumb_base model_key in
  match download_model G i model_key with
  | Raise _ => (processed, S failed)
  | Ret local_glb =>
      let thumb_path := ("reference_images/" ++ base_name ++ ".png")%string in
      let success :=
        if use_trimesh G then render_thumbnail_trimesh G i local_glb thumb_path
        else false in
      let success :=
        if negb success
        then create_placeholder_thumbnail G i local_glb thumb_path
        else success in
      if (success && path_exists G i thumb_path)%bool then
        match upload_thumbnail G i thumb_path
                (thumbnail_key model_key) with
        | Ret _ => cleanup G i local_glb (S processed, failed)
        | Raise _ => (processed, S failed)
        end
      else cleanup G i local_glb (processed, S failed)
  end.

(** The loop, from iteration [i]. *)
Fixpoint render_loop (G : Generator) (i : nat) (models : list string)
         (counts : nat * nat) : nat * nat :=
  match models with
  | [] => counts
  | model_key :: rest => render_loop G (S i) rest (render_one G i model_key counts)
  end.

(** The counters at the end of the generator's [main]. *)
Definition render_all (G : Generator) (models : list string) : nat * nat :=
  render_loop G 0 models (O, O).

(** A generator whose every step succeeds, except that the downloaded
    model cannot be removed. *)
Definition stuck_cleanup : Generator :=
  {| download_model := fun _ key => Ret ("temp_models/" ++ key)%string;
     use_trimesh := false;
     render_thumbnail_trimesh := fun _ _ _ => false;
     create_placeholder_thumbnail := fun _ _ _ => true;
     path_exists := fun _ _ => true;
     upload_thumbnail := fun _ _ _ => Ret tt;
     os_remove := fun _ _ => Raise "PermissionError" |}.

(** The same generator with a working cleanup. *)
Definition smooth_generator : Generator :=
  {| download_model := fun _ key => Ret ("temp_models/" ++ key)%string;
     use_trimesh := false;
     render_thumbnail_trimesh := fun _ _ _ => false;
     create_placeholder_thumbnail := fun _ _ _ => true;
     path_exists := fun _ _ => true;
     upload_thumbnail := fun _ _ _ => Ret tt;
     os_remove := fun _ _ => Ret tt |}.

(* ================================================================== *)
(** * Properties *)

(** ** Comparisons on rationals *)

Lemma Qltb_lt (x y : Q) : Qltb x y = true <-> (x < y)%Q.
Proof.
  unfold Qltb. rewrite negb_true_iff. split; intro H.
  - apply Qnot_le_lt. intro Hle. apply Qle_bool_iff in Hle. congruence.
  - destruct (Qle_bool y x) eqn:E; [|reflexivity].
    apply Qle_bool_iff in E. exfalso. exact (Qlt_not_le _ _ H E).
Qed.

Lemma Qltb_nlt (x y : Q) : Qltb x y = false <-> ~ (x < y)%Q.
Proof.
  split; intro H.
  - intro Hlt. apply Qltb_lt in Hlt. congruence.
  - destruct (Qltb x y) eqn:E; [|reflexivity].
    apply Qltb_lt in E. contradiction.
Qed.

Lemma Qgtb_lt (x y : Q) : Qgtb x y = true <-> (y < x)%Q.
Proof. unfold Qgtb. apply Qltb_lt. Qed.

Lemma Qgtb_nlt (x y : Q) : Qgtb x y = false <-> ~ (y < x)%Q.
Proof. unfold Qgtb. apply Qltb_nlt. Qed.

Lemma Qgeb_le (x y : Q) : Qgeb x y = true <-> (y <= x)%Q.
Proof. unfold Qgeb. apply Qle_bool_iff. Qed.

(** ** The decision tree *)

Lemma classify_shape_in (ar fr circ : Q) :
  In (classify_shape ar fr circ) detectable_shapes.
Proof.
  unfold classify_shape, detectable_shapes.
  repeat match goal with
         | |- context [if ?b then _ else _] => destruct b
         end; simpl; tauto.
Qed.

Ltac guards :=
  repeat match goal with
         | H : Qgtb _ _ = true |- _ => apply Qgtb_lt in H
         | H : Qgtb _ _ = false |- _ => apply Qgtb_nlt in H
         | H : Qltb _ _ = true |- _ => apply Qltb_lt in H
         | H : Qltb _ _ = false |- _ => apply Qltb_nlt in H
         end.

Ltac no_earlier :=
  let r' := fresh "r" in
  let Hin := fresh "Hin" in
  intros r' Hin; simpl in Hin;
  repeat (destruct Hin as [<- | Hin]); try contradiction; simpl; tauto.

(** C8. The decision tree of the categorical detector is total and first
    match wins: for every triple (aspect_ratio, fill_ratio, circularity)
    exactly one of the five rules is the first whose guard holds, and the
    label returned is the one that rule assigns: round for rule 1, aviator
    for rule 2, wayfarer or sport (split at fill_ratio > 0.6) for rule 3,
    square or cat_eye (split at fill_ratio > 0.7) for rule 4, round
    otherwise. *)
Theorem classify_shape_first_match (ar fr circ : Q) :
  exists r,
    first_match r ar fr circ /\
    rule_category r fr (classify_shape ar fr circ) /\
    (forall r', first_match r' ar fr circ -> r' = r).
Proof.
  unfold classify_shape.
  destruct (Qgtb circ (15 # 10)) eqn:Hc;
  destruct (Qltb ar (15 # 10)) eqn:Ha;
  destruct (Qltb fr (5 # 10)) eqn:Hf; simpl;
  try (exists Rule1; guards; split; [split; [simpl; tauto | no_earlier] |];
       split; [reflexivity |];
       intros [ | | | | ] [Hg Hb]; try reflexivity; exfalso;
       apply (Hb Rule1); simpl; tauto).
  all: destruct (Qgtb ar (25 # 10)) eqn:H2;
    [ exists Rule2 | destruct (Qgtb ar (18 # 10)) eqn:H3;
      [ exists Rule3 | destruct (Qgtb ar (13 # 10)) eqn:H4;
        [ exists Rule4 | exists Rule5 ] ] ].
  all: try destruct (Qgtb fr (6 # 10)) eqn:H6;
       try destruct (Qgtb fr (7 # 10)) eqn:H7;
       try destruct (Qgtb fr (75 # 100)) eqn:H75; guards.
  all: split; [split; [simpl; tauto | no_earlier] |].
  all: split; [simpl; tauto |].
  all: intros [ | | | | ] [Hg Hb]; simpl in Hg; try reflexivity; exfalso;
       try tauto;
       try (apply (Hb Rule2); simpl; tauto);
       try (apply (Hb Rule3); simpl; tauto);
       try (apply (Hb Rule4); simpl; tauto).
Qed.

(** ** The categorical detector only produces detectable shapes *)

Lemma detect_one_in (pixels : grid Z) (s : string) :
  detect_one pixels = Some s -> In s detectable_shapes.
Proof.
  unfold detect_one.
  destruct (negb _); [discriminate|].
  destruct (bounding_box _) as [[[[rmin rmax] cmin] cmax]|]; [|discriminate].
  destruct (_ || _)%bool; [discriminate|].
  destruct (region_measures _ _ _ _ _) as [[ar fr] circ].
  intro H. injection H as <-. apply classify_shape_in.
Qed.

Lemma detect_loop_in (W : World) (paths : list string) :
  forall acc l,
    Forall (fun s => In s detectable_shapes) acc ->
    detect_loop W paths acc = Ret l ->
    Forall (fun s => In s detectable_shapes) l.
Proof.
  induction paths as [|p rest IH]; intros acc l Hacc Hrun; simpl in Hrun.
  - injection Hrun as <-. exact Hacc.
  - destruct (image_open W p) as [img|e]; simpl in Hrun; [|discriminate].
    destruct (resize_l W 200 200 (convert_l img)) as [px|e]; simpl in Hrun;
      [|discriminate].
    apply (IH _ _) in Hrun; [exact Hrun|].
    destruct (detect_one px) as [s|] eqn:Hone; [|exact Hacc].
    apply Forall_app. split; [exact Hacc|].
    constructor; [|constructor]. exact (detect_one_in _ _ Hone).
Qed.

Lemma count_add_keys (s k : string) (c : list (string * nat)) :
  In k (map fst (count_add s c)) -> k = s \/ In k (map fst c).
Proof.
  induction c as [|[k0 n] c IH]; simpl.
  - intros [H|[]]. left. symmetry. exact H.
  - destruct (String.eqb k0 s) eqn:E; simpl.
    + intros [H|H]; right; [left|right]; assumption.
    + intros [H|H]; [right; left; exact H|].
      destruct (IH H) as [H'|H']; [left|right; right]; assumption.
Qed.

Lemma Counter_keys (l : list string) :
  forall c k,
    In k (map fst (fold_left (fun c s => count_add s c) l c)) ->
    In k (map fst c) \/ In k l.
Proof.
  induction l as [|s l IH]; intros c k H; simpl in *.
  - left. exact H.
  - destruct (IH _ _ H) as [H'|H'].
    + destruct (count_add_keys _ _ _ H') as [->|H'']; [right; left|left]; auto.
    + right. right. exact H'.
Qed.

Lemma most_common_key (c : list (string * nat)) (s : string) :
  most_common c = Some s -> In s (map fst c).
Proof.
  unfold most_common.
  assert (G : forall best r,
             fold_left
               (fun best kv =>
                  match best with
                  | None => Some kv
                  | Some (_, n) => if Nat.ltb n (snd kv) then Some kv else best
                  end) c best = Some r ->
             In (fst r) (map fst c) \/ best = Some r).
  { induction c as [|kv c IH]; intros best r H; simpl in H.
    - right. exact H.
    - apply IH in H. destruct H as [H|H].
      + left. right. exact H.
      + destruct best as [[k n]|].
        * destruct (Nat.ltb n (snd kv)).
          -- injection H as <-. left. left. reflexivity.
          -- right. exact H.
        * injection H as <-. left. left. reflexivity. }
  destruct (fold_left _ c None) as [r|] eqn:E; simpl; [|discriminate].
  intro H. injection H as <-.
  destruct (G _ _ E) as [H|H]; [exact H|discriminate].
Qed.

Lemma detect_glasses_shape_in (W : World) (paths : list string) :
  In (detect_glasses_shape W paths) detectable_shapes.
Proof.
  unfold detect_glasses_shape.
  assert (R : In "round" detectable_shapes) by (simpl; tauto).
  destruct (numpy_available W); [|exact R].
  destruct (detect_loop W paths []) as [l|e] eqn:Hloop; simpl; [|exact R].
  destruct (most_common (Counter l)) as [s|] eqn:Hmc; [|exact R].
  apply most_common_key in Hmc. unfold Counter in Hmc.
  apply Counter_keys in Hmc. destruct Hmc as [[]|Hin].
  pose proof (detect_loop_in W paths [] l (Forall_nil _) Hloop) as HF.
  rewrite Forall_forall in HF. exact (HF _ Hin).
Qed.

(** C10. For every environment and every list of paths (empty, failing to
    open, numpy missing) [detect_glasses_shape] returns one of the six
    labels round, aviator, wayfarer, sport, square, cat_eye, each of which
    the decision tree does produce; it never returns 'classic' nor one of
    oversized, rimless, vintage, futuristic, heart, geometric; hence
    [match_by_shape] reports confidence 0.75 whenever it returns a result,
    which is whenever the model list is not empty. *)
Theorem detect_glasses_shape_six (W : World) (paths : list string) :
  In (detect_glasses_shape W paths) detectable_shapes /\
  ~ In (detect_glasses_shape W paths)
       ["classic"; "oversized"; "rimless"; "vintage"; "futuristic"; "heart";
        "geometric"] /\
  (forall s, In s detectable_shapes ->
             exists ar fr circ, classify_shape ar fr circ = s) /\
  (forall properties,
      option_map (fun d => get d "confidence")
                 (match_by_shape W paths properties)
      = match models_of W with
        | [] => None
        | _ => Some (Some (VNum (3 # 4)))
        end).
Proof.
  pose proof (detect_glasses_shape_in W paths) as Hin.
  assert (Hne : forall s, In s detectable_shapes ->
                          ~ In s ["classic"; "oversized"; "rimless";
                                  "vintage"; "futuristic"; "heart";
                                  "geometric"]).
  { intros s Hs Hbad. simpl in Hs, Hbad.
    repeat (destruct Hs as [<- | Hs]);
      repeat (destruct Hbad as [Hbad | Hbad]); try discriminate;
      contradiction. }
  split; [exact Hin|]. split; [exact (Hne _ Hin)|]. split.
  - intros s Hs. simpl in Hs.
    repeat (destruct Hs as [<- | Hs]); try contradiction.
    + exists 1%Q, 1%Q, 2%Q. reflexivity.
    + exists 3%Q, 1%Q, 1%Q. reflexivity.
    + exists 2%Q, 1%Q, 1%Q. reflexivity.
    + exists 2%Q, (1 # 2)%Q, 1%Q. reflexivity.
    + exists (14 # 10)%Q, 1%Q, 1%Q. reflexivity.
    + exists (14 # 10)%Q, (1 # 2)%Q, 1%Q. reflexivity.
  - intro properties. unfold match_by_shape.
    destruct (models_of W) as [|m ms]; [reflexivity|].
    assert (Hc : String.eqb (detect_glasses_shape W paths) "classic" = false).
    { apply String.eqb_neq. intro Heq. apply (Hne _ Hin).
      rewrite Heq. simpl. tauto. }
    simpl. rewrite Hc. reflexivity.
Qed.

(** ** The shape-keyword fallback *)

Lemma filter_find {A} (f : A -> bool) (l : list A) :
  find f l = hd_error (filter f l).
Proof.
  induction l as [|a l IH]; simpl; [reflexivity|].
  destruct (f a); [reflexivity|exact IH].
Qed.

(** The candidate taken is the first model, in catalog order, whose name
    holds a keyword of the shape. *)
Lemma select_model_first_candidate (shape : string) (models : list string)
      (m : string) :
  find (any_keyword (keywords_for shape)) models = Some m ->
  select_model shape models = m.
Proof.
  rewrite filter_find. unfold select_model.
  destruct (filter (any_keyword (keywords_for shape)) models) as [|m' ms];
    simpl; [discriminate|].
  intro H. injection H as ->. reflexivity.
Qed.

(** C9. With the catalog round_black.glb, aviator_gold.glb,
    wayfarer_blue.glb and a detector that answers aviator, the fallback
    matcher returns aviator_gold.glb with confidence 0.75 and method
    shape_match; aviator_gold.glb is the first entry, in catalog order,
    that holds an aviator keyword. *)
Theorem fallback_selects_aviator (W : World) (paths : list string)
        (properties : Properties) :
  models_of W = catalog3 ->
  detect_glasses_shape W paths = "aviator" ->
  find (any_keyword (keywords_for "aviator")) catalog3
    = Some "aviator_gold.glb" /\
  exists d,
    match_by_shape W paths properties = Some d /\
    get d "best_model" = Some (VStr "aviator_gold.glb") /\
    get d "confidence" = Some (VNum (3 # 4)) /\
    get d "method" = Some (VStr "shape_match").
Proof.
  intros Hmodels Hshape.
  assert (Hfind : find (any_keyword (keywords_for "aviator")) catalog3
                  = Some "aviator_gold.glb") by reflexivity.
  split; [exact Hfind|].
  unfold match_by_shape. rewrite Hmodels, Hshape.
  rewrite (select_model_first_candidate _ _ _ Hfind).
  eexists. split; [reflexivity|]. repeat split.
Qed.

Lemma fallback_selects_aviator_witness :
  models_of bar_world = catalog3 /\
  detect_glasses_shape bar_world ["upload.jpg"] = "aviator" /\
  exists d,
    match_by_shape bar_world ["upload.jpg"] default_properties = Some d /\
    get d "best_model" = Some (VStr "aviator_gold.glb").
Proof.
  assert (Hm : models_of bar_world = catalog3) by reflexivity.
  assert (Hs : detect_glasses_shape bar_world ["upload.jpg"] = "aviator")
    by (vm_compute; reflexivity).
  split; [exact Hm|]. split; [exact Hs|].
  destruct (fallback_selects_aviator bar_world ["upload.jpg"]
              default_properties Hm Hs) as [_ [d [Hd [Hb _]]]].
  exists d. split; assumption.
Defined.

(** ** The frame colour *)









(** ** Uniform gray photos *)

Lemma Qadd_correct (x y : Q) : (Qadd x y == x + y)%Q.
Proof.
  unfold Qadd. destruct (Pos.eqb (Qden x) (Qden y)) eqn:E.
  - apply Pos.eqb_eq in E. unfold Qeq, Qplus. cbn. rewrite <- E.
    rewrite Pos2Z.inj_mul. ring.
  - apply Qred_correct.
Qed.

Lemma fold_Qadd_repeat (x : Q) (n : nat) :
  forall a, (fold_left Qadd (repeat x n) a
             == a + inject_Z (Z.of_nat n) * x)%Q.
Proof.
  induction n as [|n IH]; intro a.
  - cbn. ring.
  - cbn [repeat fold_left]. rewrite IH, Qadd_correct, Nat2Z.inj_succ.
    unfold Z.succ. rewrite inject_Z_plus. ring.
Qed.

Lemma Qsum_repeat (x : Q) (n : nat) :
  (Qsum (repeat x n) == inject_Z (Z.of_nat n) * x)%Q.
Proof.
  destruct n as [|n].
  - cbn. ring.
  - cbn [repeat Qsum]. rewrite fold_Qadd_repeat, Nat2Z.inj_succ.
    unfold Z.succ. rewrite inject_Z_plus. ring.
Qed.

Lemma np_mean_repeat (x : Q) (n : nat) :
  (0 < n)%nat -> (np_mean (repeat x n) == x)%Q.
Proof.
  intro Hn. unfold np_mean, len.
  rewrite Qred_correct, Qsum_repeat, repeat_length.
  field. intro H. unfold Qeq in H. cbn in H. lia.
Qed.


Lemma all_equal_repeat {A} (x : A) (l : list A) :
  Forall (eq x) l -> l = repeat x (Datatypes.length l).
Proof.
  induction 1 as [|y l <- _ IH]; cbn; [reflexivity|]. f_equal. exact IH.
Qed.












(** ** The validation gate *)

(** C6. When the classifier is loaded, at least one image loads and the
    classifier scores every loaded image, the gate accepts if and only if
    avg_glasses_score > avg_non_glasses_score and avg_glasses_score >= 0.25
    and reports avg_glasses_score as confidence; an accepted upload has no
    reason; a rejected one with avg_glasses_score < 0.25 gets the "does not
    appear to be eyeglasses" reason, any other rejected one the "something
    other than glasses" reason. *)
Theorem validation_decision (W : World) (c : Clip) (paths : list string)
        (scores : list (Q * Q)) (avg_glasses_score avg_non_glasses_score : Q) :
  clip W = Some c ->
  load_images W paths <> [] ->
  score_images c (load_images W paths) = Ret scores ->
  average_scores scores = (avg_glasses_score, avg_non_glasses_score) ->
  exists is_valid reason,
    validate_glasses_image W paths = (is_valid, avg_glasses_score, reason) /\
    (is_valid = true <->
     (avg_non_glasses_score < avg_glasses_score)%Q /\
     (25 # 100 <= avg_glasses_score)%Q) /\
    (is_valid = true -> reason = None) /\
    (is_valid = false -> (avg_glasses_score < 25 # 100)%Q ->
     reason = Some ("Image does not appear to be eyeglasses (confidence: "
                    ++ fmt_pct1 avg_glasses_score ++ ")")%string) /\
    (is_valid = false -> ~ (avg_glasses_score < 25 # 100)%Q ->
     reason = Some ("Image appears to be something other than glasses "
                    ++ "(glasses: " ++ fmt_pct1 avg_glasses_score
                    ++ ", other: " ++ fmt_pct1 avg_non_glasses_score
                    ++ ")")%string).
Proof.
  intros Hclip Hload Hscores Havg.
  set (g := avg_glasses_score) in *. set (ng := avg_non_glasses_score) in *.
  unfold validate_glasses_image. rewrite Hclip.
  destruct (load_images W paths) as [|img imgs]; [contradiction|].
  rewrite Hscores. cbn [bind try_except]. rewrite Havg.
  unfold decide_valid, MIN_GLASSES_THRESHOLD.
  eexists. eexists. split; [reflexivity|].
  split.
  { rewrite andb_true_iff, Qgtb_lt, Qgeb_le. reflexivity. }
  destruct (Qgtb g ng && Qgeb g (25 # 100))%bool; cbn [negb].
  - repeat split; intros; try reflexivity; discriminate.
  - destruct (Qltb g (25 # 100)) eqn:E3.
    + apply Qltb_lt in E3.
      repeat split; intros; try reflexivity; try discriminate; contradiction.
    + apply Qltb_nlt in E3.
      repeat split; intros; try reflexivity; try discriminate; contradiction.
Qed.

Lemma validation_decision_witness :
  validate_glasses_image low_score_world ["gray.png"]
  = (false, (1 # 10)%Q,
     Some "Image does not appear to be eyeglasses (confidence: 10.0%)").
Proof.
  assert (Hload : load_images low_score_world ["gray.png"] <> []).
  { intro E. vm_compute in E. discriminate. }
  destruct (validation_decision low_score_world
              (constant_clip (Ret (two_class_probs (1 # 10)))
                             (Raise "unused"))
              ["gray.png"] [((1 # 10)%Q, (9 # 10)%Q)] (1 # 10)%Q (9 # 10)%Q
              eq_refl Hload ltac:(vm_compute; reflexivity)
              ltac:(vm_compute; reflexivity))
    as [v [r [Hval [Hiff [_ [Hlow _]]]]]].
  destruct v.
  - exfalso. destruct Hiff as [Hi _]. destruct (Hi eq_refl) as [Hlt _].
    vm_compute in Hlt. discriminate.
  - rewrite (Hlow eq_refl ltac:(vm_compute; reflexivity)) in Hval.
    exact Hval.
Defined.

(** C7. Fail-open: whatever the list of paths (empty, or none of them
    loading), when [load_clip] returns nothing the gate answers
    (True, 1.0, None); it answers the same when the classifier is loaded,
    some image loads and scoring the loaded images raises. *)
Theorem validation_fail_open (W : World) (paths : list string) :
  clip W = None \/
  (exists c e, clip W = Some c /\ load_images W paths <> [] /\
               score_images c (load_images W paths) = Raise e) ->
  validate_glasses_image W paths = (true, 1%Q, None).
Proof.
  unfold validate_glasses_image.
  intros [Hnone | [c [e [Hclip [Hload Hraise]]]]].
  - rewrite Hnone. reflexivity.
  - rewrite Hclip.
    destruct (load_images W paths) as [|img imgs]; [contradiction|].
    rewrite Hraise. reflexivity.
Qed.

Lemma validation_fail_open_witness :
  validate_glasses_image mid_gray_world [] = (true, 1%Q, None) /\
  validate_glasses_image mid_gray_world ["missing.png"] = (true, 1%Q, None) /\
  validate_glasses_image broken_clip_world ["gray.png"] = (true, 1%Q, None).
Proof.
  split; [|split].
  - apply validation_fail_open. left. reflexivity.
  - apply validation_fail_open. left. reflexivity.
  - apply validation_fail_open. right.
    exists (constant_clip (Raise "RuntimeError") (Raise "unused")).
    exists "RuntimeError".
    split; [reflexivity|]. split; [discriminate|reflexivity].
Defined.

(** ** The boost loop *)







(** ** The embedding matcher *)

Lemma argmax_from_first_max (t : list Q) :
  forall i best pre,
    Datatypes.length pre = i ->
    nth_error pre (fst best) = Some (snd best) ->
    (forall j y, nth_error pre j = Some y -> (y <= snd best)%Q) ->
    (forall j y, (j < fst best)%nat -> nth_error pre j = Some y ->
                 (y < snd best)%Q) ->
    first_max (pre ++ t) (argmax_from i best t).
Proof.
  induction t as [|x t IH]; intros i best pre Hlen Hbest Hmax Hfirst.
  - cbn. rewrite app_nil_r. exists (snd best). auto.
  - cbn [argmax_from].
    replace (pre ++ x :: t) with ((pre ++ [x]) ++ t)
      by (rewrite <- app_assoc; reflexivity).
    assert (Hin : (fst best < Datatypes.length pre)%nat).
    { apply nth_error_Some. rewrite Hbest. discriminate. }
    apply IH.
    + rewrite length_app. cbn. lia.
    + destruct (Qltb (snd best) x) eqn:E; cbn [fst snd].
      * rewrite nth_error_app2 by lia.
        rewrite Hlen, Nat.sub_diag. reflexivity.
      * rewrite nth_error_app1 by exact Hin. exact Hbest.
    + intros j y Hj.
      destruct (Nat.lt_ge_cases j (Datatypes.length pre)) as [Hlt|Hge].
      * rewrite nth_error_app1 in Hj by exact Hlt.
        pose proof (Hmax _ _ Hj) as Hy.
        destruct (Qltb (snd best) x) eqn:E; cbn [snd]; [|exact Hy].
        apply Qltb_lt in E. apply Qlt_le_weak.
        exact (Qle_lt_trans _ _ _ Hy E).
      * rewrite nth_error_app2 in Hj by exact Hge.
        destruct (j - Datatypes.length pre)%nat as [|k] eqn:Ek;
          [|destruct k; discriminate].
        cbn in Hj. injection Hj as <-.
        destruct (Qltb (snd best) x) eqn:E; cbn [snd]; [apply Qle_refl|].
        apply Qltb_nlt in E. apply Qnot_lt_le. exact E.
    + intros j y Hj Hy.
      destruct (Qltb (snd best) x) eqn:E; cbn [fst snd] in *.
      * rewrite nth_error_app1 in Hy by lia.
        apply Qltb_lt in E. exact (Qle_lt_trans _ _ _ (Hmax _ _ Hy) E).
      * rewrite nth_error_app1 in Hy by lia. exact (Hfirst _ _ Hj Hy).
Qed.

(** [torch.argmax] returns the first position of the maximum. *)
Lemma argmax_first_max (t : list Q) (i : nat) :
  argmax t = Ret i -> first_max t i.
Proof.
  destruct t as [|x t]; cbn; [discriminate|].
  intro H. injection H as <-.
  apply (argmax_from_first_max t 1 (O, x) [x]); cbn; try reflexivity.
  - intros [|[|j]] y Hj; cbn in Hj; try discriminate.
    injection Hj as <-. apply Qle_refl.
  - intros j y Hj. lia.
Qed.

Lemma index_of_Ret {A} (l : list A) (i : nat) (a : A) :
  index_of l i = Ret a -> nth_error l i = Some a.
Proof.
  unfold index_of. destruct (nth_error l i); [|discriminate].
  intro H. injection H as ->. reflexivity.
Qed.



(** ** The output contract *)

Lemma match_by_shape_matched (W : World) (paths : list string)
      (p : Properties) (d : dict) :
  match_by_shape W paths p = Some d -> matched_record d.
Proof.
  unfold match_by_shape. destruct (models_of W); [discriminate|].
  intro H. injection H as <-. repeat split.
Qed.

Lemma simple_match_matched (W : World) (paths : list string) (d : dict) :
  simple_match W paths = Ret d -> matched_record d.
Proof.
  unfold simple_match.
  destruct (list_refs W) as [refs|e]; cbn [bind]; [|discriminate].
  assert (G : forall p,
             matched_record
               match refs with
               | ref0 :: _ =>
                   [ ("best_model", VStr (fst (splitext ref0) ++ ".glb"));
                     ("confidence", VNum (3 # 5));
                     ("source_image", VStr ref0);
                     ("matched", VBool true);
                     ("method", VStr "fallback") ] ++ properties_dict p
               | [] =>
                   [ ("best_model", VStr "default.glb");
                     ("confidence", VNum (1 # 2));
                     ("source_image", VStr "none");
                     ("matched", VBool true);
                     ("method", VStr "default") ] ++ properties_dict p
               end).
  { intro p. destruct refs; repeat split. }
  destruct paths as [|path paths].
  - intro H. injection H as <-. apply G.
  - destruct (match_by_shape W (path :: paths) _) as [r|] eqn:Hshape;
      intro H; injection H as <-.
    + exact (match_by_shape_matched _ _ _ _ Hshape).
    + apply G.
Qed.

Lemma embedding_match_matched (W : World) (c : Clip)
      (refs paths : list string) (d : dict) :
  embedding_match W c refs paths = Ret d -> matched_record d.
Proof.
  unfold embedding_match. intro H.
  repeat match type of H with
         | bind ?m _ = _ => destruct m; cbn [bind] in H; [|discriminate]
         end.
  injection H as <-. repeat split.
Qed.

(** A rejection always carries a reason. *)
Lemma rejection_has_reason (W : World) (paths : list string)
      (conf : Q) (reason : option string) :
  validate_glasses_image W paths = (false, conf, reason) ->
  exists msg, reason = Some msg.
Proof.
  unfold validate_glasses_image.
  destruct (clip W) as [c|]; [|discriminate].
  destruct (load_images W paths) as [|img imgs].
  - intro H. injection H as _ <-. eexists. reflexivity.
  - destruct (score_images c (img :: imgs)) as [scores|e];
      cbn [bind try_except]; [|discriminate].
    destruct (average_scores scores) as [g ng]. unfold decide_valid.
    destruct (Qgtb g ng && Qgeb g MIN_GLASSES_THRESHOLD)%bool;
      cbn [negb try_except]; [discriminate|].
    intro H. injection H as _ <-.
    destruct (Qltb g MIN_GLASSES_THRESHOLD); eexists; reflexivity.
Qed.

Lemma clip_match_record (W : World) (paths : list string) (d : dict) :
  clip_match W paths = Ret d ->
  matched_record d \/
  (error_record d /\ get d "method" = Some (VStr "validation_rejected")).
Proof.
  unfold clip_match.
  destruct (validate_glasses_image W paths) as [[valid conf] reason] eqn:Hv.
  destruct valid; cbn [negb].
  - intro H. left.
    destruct (clip W) as [c|]; [|exact (simple_match_matched _ _ _ H)].
    destruct (embeddings_file W) as [| |refs].
    + destruct (list_refs W); cbn [bind] in H; [|discriminate].
      exact (simple_match_matched _ _ _ H).
    + destruct (list_refs W); cbn [bind] in H; [|discriminate].
      exact (simple_match_matched _ _ _ H).
    + destruct (embedding_match W c refs paths) as [r|e] eqn:He.
      * injection H as <-. exact (embedding_match_matched _ _ _ _ _ He).
      * exact (simple_match_matched _ _ _ H).
  - intro H. injection H as <-. right.
    destruct (rejection_has_reason _ _ _ _ Hv) as [msg ->].
    repeat split. exists msg. reflexivity.
Qed.

(** C3 (as the code has it). The script prints exactly one record and no
    exception escapes it. A record with matched:true is complete
    (best_model, confidence, source_image, matched, method) and has no
    error field. The other records of a match request are partial by
    construction: they have matched:false and an explicit error field and
    none of best_model, confidence, source_image; they come from the
    validation rejection, from a request without images and from the
    outermost handler, which turns any exception of [main] into
    error, matched:false, method crash_handler. The [--build] run prints
    its own record. *)
Theorem script_record_shapes (W : World) (argv : list string) :
  (matched_record (script W argv) \/
   error_record (script W argv) \/
   (existsb (String.eqb "--build") argv = true /\
    exists ok, script W argv = [("ok", VBool ok)])) /\
  (forall e, main W argv = Raise e ->
             script W argv = [ ("error", VStr e); ("matched", VBool false);
                               ("method", VStr "crash_handler") ]).
Proof.
  split.
  - unfold script.
    destruct (main W argv) as [d|e] eqn:Hmain; cbn [try_except].
    + unfold main in Hmain.
      destruct (existsb (String.eqb "--build") argv) eqn:Hb.
      * right. right. split; [reflexivity|].
        destruct (build_embeddings W) as [ok|e]; cbn [bind] in Hmain;
          [|discriminate].
        injection Hmain as <-. exists ok. reflexivity.
      * destruct (filter _ (tl argv)) as [|img imgs].
        -- injection Hmain as <-. right. left.
           repeat split. exists "No images". reflexivity.
        -- destruct (clip_match_record _ _ _ Hmain) as [H|[H _]];
             [left|right; left]; exact H.
    + right. left. repeat split. exists e. reflexivity.
  - intros e H. unfold script. rewrite H. reflexivity.
Qed.

(** C3, counterexample. A photo the classifier scores at 10% glasses: the
    record printed for it has no best_model, confidence or source_image. *)
Lemma rejected_record_is_partial :
  script low_score_world ["match.py"; "gray.png"]
  = [ ("error",
       VStr "Image does not appear to be eyeglasses (confidence: 10.0%)");
      ("matched", VBool false);
      ("method", VStr "validation_rejected");
      ("validation_confidence", VNum (1 # 10)) ] /\
  complete_match_result (script low_score_world ["match.py"; "gray.png"])
  = false.
Proof. split; vm_compute; reflexivity. Qed.

(** The outermost handler at work: the reference directory cannot be
    listed, [simple_match] raises, the script still prints a record. *)
Example crash_handler_record :
  script unreadable_refs_world ["match.py"; "gray.png"]
  = [ ("error", VStr "PermissionError"); ("matched", VBool false);
      ("method", VStr "crash_handler") ].
Proof. vm_compute. reflexivity. Qed.

(** ** What each stage of the embedding matcher consumes *)











(* ================================================================== *)
(** * Further properties of the code *)

(** ** The coarse descriptor and the boost *)

(** X1. [analyze_frame_shape] never reports a frame as both rectangular
    and round: the first needs an aspect ratio above 1.6, the second one
    below 1.4, so the [elif] of the boost loop hides nothing. *)
Theorem shape_flags_exclusive (W : World) (image : grid rgb) :
  (is_rectangular (analyze_frame_shape W image) &&
   is_round (analyze_frame_shape W image))%bool = false.
Proof.
  unfold analyze_frame_shape.
  destruct (numpy_available W); [|reflexivity].
  destruct (resize_l W 100 100 (convert_l image)) as [pixels|e];
    [|reflexivity].
  cbn [bind try_except]. unfold analyze_pixels. cbn [is_rectangular is_round].
  match goal with
  | |- context [Qltb ?a (14 # 10)] => generalize a; intro aspect
  end.
  destruct (Qgtb aspect (16 # 10)) eqn:Hr; [|reflexivity].
  destruct (Qltb aspect (14 # 10)) eqn:Ho; [|apply andb_false_r].
  apply Qgtb_lt in Hr. apply Qltb_lt in Ho.
  pose proof (Qlt_trans _ _ _ Hr Ho) as Habs.
  vm_compute in Habs. discriminate.
Qed.

Lemma boost_loop_no_flag (s : ShapeInfo) (refs : list string) :
  is_rectangular s = false -> is_round s = false ->
  forall i sims, boost_loop s i refs sims = Ret sims.
Proof.
  intros Hr Ho. induction refs as [|r refs IH]; intros i sims.
  - reflexivity.
  - cbn [boost_loop]. unfold boost_entry. rewrite Hr, Ho.
    cbn [bind]. apply IH.
Qed.

(** X2. When the descriptor sets neither flag, the boost loop returns the
    similarities as they are and raises nothing, whatever the catalog names
    and however long the catalog is compared with the tensor; the entry the
    matcher then picks is the first maximum of the plain similarities. *)
Theorem no_flag_no_boost (s : ShapeInfo) (refs : list string) (sims : list Q) :
  is_rectangular s = false -> is_round s = false ->
  boost_loop s 0 refs sims = Ret sims /\
  (forall idx, (sb <- boost_loop s 0 refs sims ;; argmax sb) = Ret idx ->
               first_max sims idx).
Proof.
  intros Hr Ho. rewrite (boost_loop_no_flag s refs Hr Ho 0 sims).
  split; [reflexivity|]. intros idx H. cbn [bind] in H.
  exact (argmax_first_max _ _ H).
Qed.

Lemma no_flag_no_boost_witness :
  boost_loop shape_failed 0 ["round_a.jpg"; "square_b.jpg"; "extra.jpg"]
             [(1 # 2)%Q; (45 # 100)%Q]
  = Ret [(1 # 2)%Q; (45 # 100)%Q].
Proof.
  exact (proj1 (no_flag_no_boost shape_failed
                  ["round_a.jpg"; "square_b.jpg"; "extra.jpg"]
                  [(1 # 2)%Q; (45 # 100)%Q] eq_refl eq_refl)).
Defined.

(** ** The property extractor *)

Lemma process_image_unreadable (W : World) (acc : Accum) (p : string) :
  opens W p = false -> process_image W acc p = acc.
Proof.
  unfold opens, process_image.
  destruct (image_open W p); [discriminate|reflexivity].
Qed.

Lemma fold_process_readable (W : World) (paths : list string) :
  forall acc,
    fold_left (process_image W) paths acc
    = fold_left (process_image W) (filter (opens W) paths) acc.
Proof.
  induction paths as [|p paths IH]; intro acc; [reflexivity|].
  cbn [filter fold_left].
  destruct (opens W p) eqn:E.
  - cbn [fold_left]. apply IH.
  - rewrite (process_image_unreadable _ _ _ E). apply IH.
Qed.

(** X3. A path that does not open is skipped: the extracted properties are
    those of the list with the unreadable paths removed, wherever they
    stand in it. *)
Theorem extract_skips_unreadable (W : World) (paths : list string) :
  extract_glasses_properties W paths
  = extract_glasses_properties W (filter (opens W) paths).
Proof.
  unfold extract_glasses_properties.
  rewrite (fold_process_readable W paths accum_init). reflexivity.
Qed.

(** X4. When no path opens (the empty list included) the extractor returns
    the default property set; it raises nothing. *)
Theorem extract_defaults_when_nothing_opens (W : World)
        (paths : list string) :
  filter (opens W) paths = [] ->
  extract_glasses_properties W paths = default_properties.
Proof.
  intro H. unfold extract_glasses_properties.
  rewrite (fold_process_readable W paths accum_init), H.
  destruct (numpy_available W); reflexivity.
Qed.

Lemma extract_defaults_when_nothing_opens_witness :
  extract_glasses_properties mid_gray_world ["missing.png"; "absent.jpg"]
  = default_properties.
Proof.
  apply extract_defaults_when_nothing_opens. reflexivity.
Defined.

(** Rounding keeps a number between two integers it lies between. *)
Lemma round_half_even_bounds (x : Q) (a b : Z) :
  (inject_Z a <= x)%Q -> (x <= inject_Z b)%Q ->
  a <= round_half_even x <= b.
Proof.
  intros Ha Hb. unfold round_half_even.
  assert (Hfa : a <= Qfloor x).
  { rewrite <- (Qfloor_Z a). apply Qfloor_resp_le. exact Ha. }
  assert (Hfb : Qfloor x <= b).
  { rewrite <- (Qfloor_Z b). apply Qfloor_resp_le. exact Hb. }
  assert (Hup : ~ (x - inject_Z (Qfloor x) < 1 # 2)%Q -> Qfloor x + 1 <= b).
  { intro Hr.
    assert (Hlt : (inject_Z (Qfloor x) < x)%Q).
    { apply Qnot_lt_le in Hr.
      apply Qlt_minus_iff.
      apply (Qlt_le_trans _ (1 # 2)); [reflexivity|].
      setoid_replace (x + - inject_Z (Qfloor x))%Q
        with (x - inject_Z (Qfloor x))%Q by ring.
      exact Hr. }
    pose proof (Qlt_le_trans _ _ _ Hlt Hb) as Hfb'.
    rewrite <- Zlt_Qlt in Hfb'. lia. }
  destruct (Qltb (x - inject_Z (Qfloor x)) (1 # 2)) eqn:E1; [lia|].
  apply Qltb_nlt in E1. specialize (Hup E1).
  destruct (Qltb (1 # 2) (x - inject_Z (Qfloor x))); [lia|].
  destruct (Z.even (Qfloor x)); lia.
Qed.

(** [round(x, 2)] keeps a number between two hundredths it lies between. *)
Lemma py_round2_bounds (x : Q) (a b : Z) :
  (a # 100 <= x)%Q -> (x <= b # 100)%Q ->
  (a # 100 <= py_round x 2)%Q /\ (py_round x 2 <= b # 100)%Q.
Proof.
  intros Ha Hb. unfold py_round.
  change (inject_Z (10 ^ Z.of_nat 2)) with (inject_Z 100).
  assert (Ha' : (inject_Z a <= x * inject_Z 100)%Q).
  { unfold Qle in *. cbn in *. rewrite Pos.mul_1_r. lia. }
  assert (Hb' : (x * inject_Z 100 <= inject_Z b)%Q).
  { unfold Qle in *. cbn in *. rewrite Pos.mul_1_r. lia. }
  destruct (round_half_even_bounds _ _ _ Ha' Hb') as [H1 H2].
  rewrite Qred_correct.
  generalize dependent (round_half_even (x * inject_Z 100)). intros r H1 H2.
  split; unfold Qle, Qdiv, Qmult, Qinv; cbn; lia.
Qed.

Lemma Qmin_Qmax_between (lo hi t : Q) :
  (lo <= hi)%Q ->
  (lo <= Qmin hi (Qmax lo t))%Q /\ (Qmin hi (Qmax lo t) <= hi)%Q.
Proof.
  intro H. unfold Qmin, Qmax.
  destruct (Qle_bool lo t) eqn:E1.
  - apply Qle_bool_iff in E1.
    destruct (Qle_bool hi t) eqn:E2.
    + split; [exact H|apply Qle_refl].
    + split; [exact E1|].
      apply Qlt_le_weak. apply Qnot_le_lt. intro Hc.
      apply Qle_bool_iff in Hc. congruence.
  - destruct (Qle_bool hi lo) eqn:E2.
    + split; [exact H|apply Qle_refl].
    + split; [apply Qle_refl|exact H].
Qed.

Lemma detect_material_cases (W : World) (px : list rgb) :
  detect_material W px = ("plastic", (1 # 10)%Q) \/
  detect_material W px = ("metal", (7 # 10)%Q) \/
  detect_material W px = ("metal", (1 # 2)%Q).
Proof.
  unfold detect_material.
  destruct (len _ >? 10); [|left; reflexivity].
  match goal with
  | |- context [if ?b then ("metal", _) else _] => destruct b
  end; [|left; reflexivity].
  match goal with
  | |- context [if ?b then (7 # 10)%Q else _] => destruct b
  end; [right; left|right; right]; reflexivity.
Qed.

(** X5. Whatever the uploads, the extracted record stays within its
    ranges: the tint opacity lies between 0.25 and 0.85, the frame scale is
    1, and material and metalness come in three combinations only, plastic
    with 0.1, metal with 0.7 or metal with 0.5. *)
Theorem extract_ranges (W : World) (paths : list string) :
  let p := extract_glasses_properties W paths in
  (25 # 100 <= tintOpacity p)%Q /\ (tintOpacity p <= 85 # 100)%Q /\
  frameScale p = 1%Q /\
  ((frameMaterial p = "plastic" /\ frameMetalness p = (1 # 10)%Q) \/
   (frameMaterial p = "metal" /\ frameMetalness p = (7 # 10)%Q) \/
   (frameMaterial p = "metal" /\ frameMetalness p = (1 # 2)%Q)).
Proof.
  cbn zeta. unfold extract_glasses_properties.
  destruct (numpy_available W); cbn [negb].
  2:{ cbn. repeat split; try (intro; discriminate). left. split; reflexivity. }
  set (acc := fold_left (process_image W) paths accum_init).
  pose proof (detect_material_cases W (all_frame_pixels acc)) as Hm.
  destruct (detect_material W (all_frame_pixels acc)) as [mat met].
  assert (Ht : forall lc op,
             (match all_lens_colors acc with
              | [] => ("#3b82f6", (1 # 2)%Q)
              | c :: cs =>
                  let '(r, g, b) := per_channel_int mean_Z (c :: cs) in
                  (hex_color r g b,
                   Qmin (85 # 100)
                     (Qmax (25 # 100)
                        (saturation (inject_Z r / 255) (inject_Z g / 255)
                                    (inject_Z b / 255) * (1 # 2) + (3 # 10))))
              end) = (lc, op) ->
             (25 # 100 <= op)%Q /\ (op <= 85 # 100)%Q).
  { intros lc op H. destruct (all_lens_colors acc) as [|c cs].
    - injection H as _ <-. split; intro; discriminate.
    - destruct (per_channel_int mean_Z (c :: cs)) as [[r g] b].
      injection H as _ <-. apply Qmin_Qmax_between. intro; discriminate. }
  destruct (match all_lens_colors acc with [] => _ | _ :: _ => _ end)
    as [lc op] eqn:Hl.
  destruct (Ht lc op eq_refl) as [Hlo Hhi].
  destruct (py_round2_bounds op 25 85 Hlo Hhi) as [H1 H2].
  cbn [tintOpacity frameScale frameMaterial frameMetalness].
  split; [exact H1|]. split; [exact H2|]. split; [reflexivity|].
  destruct Hm as [Hm|[Hm|Hm]]; injection Hm as -> ->;
    [left|right; left|right; right]; split; reflexivity.
Qed.

(** ** The categorical detector *)

Lemma detect_loop_raises (W : World) (paths : list string) (p : string) :
  In p paths -> opens W p = false ->
  forall acc, exists e, detect_loop W paths acc = Raise e.
Proof.
  unfold opens.
  induction paths as [|q paths IH]; intros Hin Hp acc; [contradiction|].
  cbn [detect_loop].
  destruct (image_open W q) as [img|e] eqn:Hq; cbn [bind].
  - destruct (resize_l W 200 200 (convert_l img)) as [px|e]; cbn [bind].
    + apply IH; [|exact Hp].
      destruct Hin as [->|Hin]; [|exact Hin].
      rewrite Hq in Hp. discriminate.
    + exists e. reflexivity.
  - exists e. reflexivity.
Qed.

(** X6. The detector has no per-image guard: a single path that does not
    open, anywhere in the list, makes it answer the default round, whatever
    the other images show. *)
Theorem detect_round_when_a_path_fails (W : World) (paths : list string)
        (p : string) :
  In p paths -> opens W p = false ->
  detect_glasses_shape W paths = "round".
Proof.
  intros Hin Hp. unfold detect_glasses_shape.
  destruct (numpy_available W); [|reflexivity].
  destruct (detect_loop_raises W paths p Hin Hp []) as [e ->].
  reflexivity.
Qed.

Lemma detect_round_when_a_path_fails_witness :
  detect_glasses_shape bar_world ["upload.jpg"; "missing.png"] = "round".
Proof.
  apply (detect_round_when_a_path_fails bar_world
           ["upload.jpg"; "missing.png"] "missing.png").
  - right. left. reflexivity.
  - reflexivity.
Defined.

Lemma flat_grid_map {A B} (f : A -> B) (g : grid A) :
  flat (grid_map f g) = map f (flat g).
Proof. unfold flat, grid_map. symmetry. apply concat_map. Qed.

Lemma existsb_all_false {A} (f : A -> bool) (l : list A) :
  (forall x, In x l -> f x = false) -> existsb f l = false.
Proof.
  induction l as [|a l IH]; intro H; [reflexivity|].
  cbn. rewrite (H a (or_introl eq_refl)), IH; [reflexivity|].
  intros x Hx. apply H. right. exact Hx.
Qed.

(** X7. An image whose 200x200 grayscale copy is uniform never yields a
    shape: the adaptive threshold min(0.8 * mean, 180) is not above the
    common pixel value, so no pixel is dark and the image is skipped. *)
Theorem uniform_image_yields_no_shape (pixels : grid Z) (v : Z) :
  0 <= v -> Forall (eq v) (flat pixels) -> detect_one pixels = None.
Proof.
  intros Hv Hall. unfold detect_one.
  rewrite flat_grid_map.
  rewrite (existsb_all_false (fun b : bool => b)); [reflexivity|].
  intros b Hb. apply in_map_iff in Hb. destruct Hb as [p [<- Hp]].
  rewrite Forall_forall in Hall. rewrite <- (Hall p Hp).
  assert (Hm : (np_mean (map inject_Z (flat pixels)) == inject_Z v)%Q).
  { rewrite (all_equal_repeat v (flat pixels)) by (apply Forall_forall; exact Hall).
    rewrite map_repeat. apply np_mean_repeat.
    destruct (flat pixels); [contradiction|cbn; lia]. }
  apply Qltb_nlt. intro H. unfold Qmin in H.
  destruct (Qle_bool (np_mean (map inject_Z (flat pixels)) * (8 # 10)) 180)
    eqn:E.
  - rewrite Hm in H. unfold Qlt in H. cbn in H. lia.
  - assert (E' : ~ (np_mean (map inject_Z (flat pixels)) * (8 # 10) <= 180)%Q).
    { intro Hc. apply Qle_bool_iff in Hc. congruence. }
    rewrite Hm in E'. apply E'. unfold Qlt in H. unfold Qle. cbn in *. lia.
Qed.

Lemma uniform_image_yields_no_shape_witness :
  detect_one [[7; 7; 7]; [7; 7; 7]] = None.
Proof.
  apply (uniform_image_yields_no_shape [[7; 7; 7]; [7; 7; 7]] 7); [lia|].
  repeat constructor.
Defined.

(** ** Counting the votes *)

Lemma counted_count_add (s t : string) (c : list (string * nat)) :
  counted (count_add s c) t
  = (if String.eqb s t then S (counted c t) else counted c t).
Proof.
  unfold counted. induction c as [|[k n] c IH]; cbn.
  - destruct (String.eqb s t); reflexivity.
  - destruct (String.eqb k s) eqn:Eks; cbn.
    + apply String.eqb_eq in Eks. subst k.
      destruct (String.eqb s t); reflexivity.
    + destruct (String.eqb k t) eqn:Ekt; [|exact IH].
      apply String.eqb_eq in Ekt. subst k.
      rewrite String.eqb_sym, Eks. reflexivity.
Qed.

Lemma counted_fold (l : list string) (t : string) :
  forall c,
    counted (fold_left (fun c s => count_add s c) l c) t
    = (counted c t + count_occ string_dec l t)%nat.
Proof.
  induction l as [|s l IH]; intro c; cbn [fold_left count_occ].
  - lia.
  - rewrite IH, counted_count_add.
    destruct (string_dec s t) as [->|Hne].
    + rewrite String.eqb_refl. lia.
    + apply String.eqb_neq in Hne. rewrite Hne. lia.
Qed.

Lemma count_add_keys_nodup (s : string) (c : list (string * nat)) :
  NoDup (map fst c) -> NoDup (map fst (count_add s c)).
Proof.
  induction c as [|[k n] c IH]; cbn; intro H.
  - constructor; [intros []|constructor].
  - destruct (String.eqb k s) eqn:E; cbn; [exact H|].
    inversion H as [|? ? Hnotin Hnd]; subst.
    constructor; [|exact (IH Hnd)].
    intro Hin. apply count_add_keys in Hin. destruct Hin as [->|Hin].
    + rewrite String.eqb_refl in E. discriminate.
    + contradiction.
Qed.

Lemma Counter_keys_nodup (l : list string) :
  forall c, NoDup (map fst c) ->
            NoDup (map fst (fold_left (fun c s => count_add s c) l c)).
Proof.
  induction l as [|s l IH]; intros c H; cbn; [exact H|].
  apply IH. apply count_add_keys_nodup. exact H.
Qed.

Lemma assoc_in_nodup (c : list (string * nat)) (k : string) (n : nat) :
  NoDup (map fst c) -> In (k, n) c -> assoc k c = Some n.
Proof.
  induction c as [|[k0 n0] c IH]; cbn; intros Hnd Hin; [contradiction|].
  inversion Hnd as [|? ? Hnotin Hnd']; subst.
  destruct Hin as [H|H].
  - injection H as -> ->. rewrite String.eqb_refl. reflexivity.
  - destruct (String.eqb k0 k) eqn:E; [|exact (IH Hnd' H)].
    apply String.eqb_eq in E. subst k0. exfalso. apply Hnotin.
    apply in_map_iff. exists (k, n). split; [reflexivity|exact H].
Qed.

Lemma assoc_in (c : list (string * nat)) (k : string) (n : nat) :
  assoc k c = Some n -> In (k, n) c.
Proof.
  induction c as [|[k0 n0] c IH]; cbn; [discriminate|].
  destruct (String.eqb k0 k) eqn:E.
  - apply String.eqb_eq in E. subst k0. intro H. injection H as ->.
    left. reflexivity.
  - intro H. right. exact (IH H).
Qed.

(** The pair kept by the scan has a count no other pair exceeds. *)
Lemma scan_max (c : list (string * nat)) :
  forall best r,
    fold_left
      (fun best kv =>
         match best with
         | None => Some kv
         | Some (_, n) => if Nat.ltb n (snd kv) then Some kv else best
         end) c best = Some r ->
    (In r c \/ best = Some r) /\
    (forall kv, In kv c -> (snd kv <= snd r)%nat) /\
    (forall b, best = Some b -> (snd b <= snd r)%nat).
Proof.
  induction c as [|kv c IH]; intros best r H; cbn [fold_left] in H.
  - split; [right; exact H|]. split; [intros ? []|].
    intros b Hb. rewrite Hb in H. injection H as ->. lia.
  - destruct (IH _ _ H) as [Hin [Hall Hbest]].
    split; [|split].
    + destruct Hin as [Hin|Hin]; [left; right; exact Hin|].
      destruct best as [[k n]|].
      * destruct (Nat.ltb n (snd kv)).
        -- injection Hin as <-. left. left. reflexivity.
        -- right. exact Hin.
      * injection Hin as <-. left. left. reflexivity.
    + intros kv' [<-|Hin']; [|exact (Hall _ Hin')].
      destruct best as [[k n]|].
      * destruct (Nat.ltb n (snd kv)) eqn:E.
        -- exact (Hbest _ eq_refl).
        -- apply Nat.ltb_ge in E.
           pose proof (Hbest _ eq_refl) as Hb. cbn in Hb. lia.
      * exact (Hbest _ eq_refl).
    + intros b ->. destruct b as [k n].
      destruct (Nat.ltb n (snd kv)) eqn:E.
      * apply Nat.ltb_lt in E.
        pose proof (Hbest _ eq_refl) as Hb. cbn in *. lia.
      * exact (Hbest _ eq_refl).
Qed.

(** X8. The label the detector returns for the per-image labels [l] occurs
    in [l] at least as often as any other label: [Counter] counts every
    label exactly and [most_common] takes a key of maximal count. *)
Theorem most_common_is_most_frequent (l : list string) (s t : string) :
  most_common (Counter l) = Some s ->
  In s l /\
  counted (Counter l) t = count_occ string_dec l t /\
  (count_occ string_dec l t <= count_occ string_dec l s)%nat.
Proof.
  intro H.
  assert (Hcnt : forall u, counted (Counter l) u = count_occ string_dec l u).
  { intro u. unfold Counter. rewrite counted_fold. reflexivity. }
  assert (Hnd : NoDup (map fst (Counter l))).
  { unfold Counter. apply Counter_keys_nodup. constructor. }
  unfold most_common in H.
  destruct (fold_left _ (Counter l) None) as [[k n]|] eqn:E;
    cbn in H; [|discriminate].
  injection H as ->.
  destruct (scan_max _ _ _ E) as [[Hin|Hin] [Hall _]]; [|discriminate].
  pose proof (assoc_in_nodup _ _ _ Hnd Hin) as Hs.
  assert (Hns : count_occ string_dec l s = n).
  { rewrite <- Hcnt. unfold counted. rewrite Hs. reflexivity. }
  split; [|split; [apply Hcnt|]].
  - apply (count_occ_In string_dec). rewrite Hns.
    assert (Hk : In s (map fst (Counter l))).
    { apply in_map_iff. exists (s, n). split; [reflexivity|exact Hin]. }
    unfold Counter in Hk. apply Counter_keys in Hk.
    destruct Hk as [[]|Hk].
    apply (count_occ_In string_dec) in Hk. lia.
  - rewrite Hns, <- Hcnt. unfold counted.
    destruct (assoc t (Counter l)) as [m|] eqn:Et; [|lia].
    exact (Hall _ (assoc_in _ _ _ Et)).
Qed.

Lemma most_common_is_most_frequent_witness :
  (count_occ string_dec ["sport"; "round"; "sport"; "round"; "square"] "round"
   <= count_occ string_dec ["sport"; "round"; "sport"; "round"; "square"]
                "sport")%nat.
Proof.
  exact (proj2 (proj2 (most_common_is_most_frequent
                         ["sport"; "round"; "sport"; "round"; "square"]
                         "sport" "round" eq_refl))).
Defined.

(** ** The shape-keyword fallback and the generic fallback *)

Lemma select_model_find (shape : string) (models : list string) :
  select_model shape models
  = match find (any_keyword (keywords_for shape)) models with
    | Some m => m
    | None =>
        match find is_glasses_model models with
        | Some m => m
        | None => hd "" models
        end
    end.
Proof.
  unfold select_model. rewrite !filter_find.
  destruct (filter (any_keyword (keywords_for shape)) models) as [|m ms];
    [|reflexivity].
  cbn [hd_error].
  destruct (filter is_glasses_model models) as [|g gs]; [|reflexivity].
  cbn [hd_error]. destruct models; reflexivity.
Qed.

(** X9. The model [match_by_shape] selects is the first catalog entry whose
    name holds a keyword of the shape; failing that the first entry whose
    name holds glasses, spectacle or eyewear; failing that the first entry
    of the catalog. The cut to ten candidates changes nothing, and the
    selected name is always an entry of a non-empty catalog. *)
Theorem select_model_chain (shape : string) (models : list string) :
  select_model shape models
  = match find (any_keyword (keywords_for shape)) models with
    | Some m => m
    | None =>
        match find is_glasses_model models with
        | Some m => m
        | None => hd "" models
        end
    end /\
  (models = [] \/ In (select_model shape models) models).
Proof.
  split; [apply select_model_find|].
  rewrite select_model_find.
  destruct (find (any_keyword (keywords_for shape)) models) as [m|] eqn:E1.
  - right. exact (proj1 (find_some _ _ E1)).
  - destruct (find is_glasses_model models) as [m|] eqn:E2.
    + right. exact (proj1 (find_some _ _ E2)).
    + destruct models as [|m ms]; [left; reflexivity|right; left; reflexivity].
Qed.

(** X10. [simple_match] raises exactly when the reference directory cannot
    be listed; nothing else in it raises. *)
Theorem simple_match_raises_iff (W : World) (paths : list string)
        (e : string) :
  simple_match W paths = Raise e <-> reference_images W = ListingFails e.
Proof.
  unfold simple_match, list_refs.
  destruct (reference_images W) as [|names|e']; cbn [bind].
  - split; [|discriminate].
    destruct paths; [discriminate|]. destruct (match_by_shape _ _ _);
      discriminate.
  - split; [|discriminate].
    destruct paths; [discriminate|]. destruct (match_by_shape _ _ _);
      discriminate.
  - split; intro H; injection H as ->; reflexivity.
Qed.

(** X11. The method and the fixed confidence of a [simple_match] answer:
    shape_match with 0.75 whenever there is an image and a model list;
    otherwise fallback with 0.6 when a reference image exists, default with
    0.5 when none does. *)
Theorem simple_match_method (W : World) (paths : list string) (d : dict) :
  simple_match W paths = Ret d ->
  exists refs,
    list_refs W = Ret refs /\
    (get d "method", get d "confidence")
    = match paths, models_of W, refs with
      | _ :: _, _ :: _, _ =>
          (Some (VStr "shape_match"), Some (VNum (3 # 4)))
      | _, _, _ :: _ => (Some (VStr "fallback"), Some (VNum (3 # 5)))
      | _, _, [] => (Some (VStr "default"), Some (VNum (1 # 2)))
      end.
Proof.
  unfold simple_match.
  destruct (list_refs W) as [refs|e]; cbn [bind]; [|discriminate].
  intro H. exists refs. split; [reflexivity|].
  destruct paths as [|p paths].
  - injection H as <-. destruct (models_of W); destruct refs; reflexivity.
  - unfold match_by_shape in H.
    destruct (models_of W) as [|m ms].
    + injection H as <-. destruct refs; reflexivity.
    + injection H as <-.
      assert (Hc : String.eqb (detect_glasses_shape W (p :: paths))
                              "classic" = false).
      { apply String.eqb_neq. intro Heq.
        pose proof (detect_glasses_shape_in W (p :: paths)) as Hin.
        rewrite Heq in Hin. cbn in Hin.
        repeat (destruct Hin as [Hin|Hin]; [discriminate|]). exact Hin. }
      cbn. rewrite Hc. reflexivity.
Qed.

Lemma simple_match_method_witness :
  exists d,
    simple_match mid_gray_world [] = Ret d /\
    get d "method" = Some (VStr "default").
Proof.
  eexists. split; [reflexivity|].
  destruct (simple_match_method mid_gray_world [] _ eq_refl)
    as [refs [_ _]].
  reflexivity.
Defined.

(** X12. [list_refs] returns the names of the directory that end in .jpg,
    .jpeg, .png or .webp (in any letter case), each as often as the
    directory lists it, in ascending order; a missing directory gives the
    empty list. *)
Theorem list_refs_sorted (W : World) :
  match reference_images W with
  | NotADirectory => list_refs W = Ret []
  | ListingFails e => list_refs W = Raise e
  | Listing names =>
      exists l,
        list_refs W = Ret l /\
        Permutation.Permutation
          (filter (fun f => existsb (String.eqb (snd (splitext (lower f))))
                                    image_exts) names) l /\
        Sorted.Sorted (fun a b => String.leb a b = true) l
  end.
Proof.
  unfold list_refs. destruct (reference_images W) as [|names|e];
    try reflexivity.
  eexists. split; [reflexivity|]. split.
  - apply StringSort.Permuted_sort.
  - apply StringSort.Sorted_sort.
Qed.

(** ** The validation gate *)

Lemma load_images_filter (W : World) (paths : list string) :
  load_images W (filter (opens W) paths) = load_images W paths.
Proof.
  induction paths as [|p paths IH]; [reflexivity|].
  cbn [filter load_images]. unfold opens at 1.
  destruct (image_open W p) as [img|e] eqn:E; [|exact IH].
  cbn [load_images]. rewrite E, IH. reflexivity.
Qed.

Lemma load_images_none (W : World) (paths : list string) :
  forallb (fun p => negb (opens W p)) paths = true ->
  load_images W paths = [].
Proof.
  induction paths as [|p paths IH]; [reflexivity|].
  cbn [forallb load_images]. unfold opens at 1.
  destruct (image_open W p); cbn [negb andb]; [discriminate|exact IH].
Qed.

(** X13. With the classifier loaded, a request none of whose paths opens
    as an image is rejected, not let through: the gate answers
    "Could not load any images" with confidence 0 and [clip_match] prints
    the rejection record. *)
Theorem validation_rejects_when_nothing_loads (W : World) (c : Clip)
        (paths : list string) :
  clip W = Some c ->
  forallb (fun p => negb (opens W p)) paths = true ->
  validate_glasses_image W paths
  = (false, 0%Q, Some "Could not load any images") /\
  clip_match W paths
  = Ret [ ("error", VStr "Could not load any images");
          ("matched", VBool false);
          ("method", VStr "validation_rejected");
          ("validation_confidence", VNum 0%Q) ].
Proof.
  intros Hc Hn.
  assert (Hv : validate_glasses_image W paths
               = (false, 0%Q, Some "Could not load any images")).
  { unfold validate_glasses_image.
    rewrite Hc, (load_images_none _ _ Hn). reflexivity. }
  split; [exact Hv|].
  unfold clip_match. rewrite Hv. reflexivity.
Qed.

Lemma validation_rejects_when_nothing_loads_witness :
  clip_match low_score_world ["missing.png"]
  = Ret [ ("error", VStr "Could not load any images");
          ("matched", VBool false);
          ("method", VStr "validation_rejected");
          ("validation_confidence", VNum 0%Q) ].
Proof.
  exact (proj2 (validation_rejects_when_nothing_loads
                  low_score_world _ ["missing.png"] eq_refl eq_refl)).
Defined.

(** X14. The gate gives a reason exactly when it rejects: an accepted
    request has no reason, a rejected one always has one. *)
Theorem validation_reason_iff_rejected (W : World) (paths : list string) :
  fst (fst (validate_glasses_image W paths)) = false <->
  exists msg, snd (validate_glasses_image W paths) = Some msg.
Proof.
  unfold validate_glasses_image.
  destruct (clip W) as [c|].
  2:{ cbn. split; [discriminate|]. intros [msg H]. discriminate. }
  destruct (load_images W paths) as [|img imgs].
  { cbn. split; [|reflexivity]. intros _. eexists. reflexivity. }
  destruct (score_images c (img :: imgs)) as [scores|e];
    cbn [bind try_except].
  2:{ cbn. split; [discriminate|]. intros [msg H]. discriminate. }
  destruct (average_scores scores) as [g ng]. unfold decide_valid.
  destruct (Qgtb g ng && Qgeb g MIN_GLASSES_THRESHOLD)%bool;
    cbn [negb try_except fst snd].
  - split; [discriminate|]. intros [msg H]. discriminate.
  - split; [|reflexivity]. intros _.
    destruct (Qltb g MIN_GLASSES_THRESHOLD); eexists; reflexivity.
Qed.

(** X15. The verdict of the gate depends only on the paths that open:
    unreadable paths are skipped, they neither reject the request nor
    change the averages. *)
Theorem validation_ignores_unreadable (W : World) (paths : list string) :
  validate_glasses_image W paths
  = validate_glasses_image W (filter (opens W) paths).
Proof.
  unfold validate_glasses_image. rewrite load_images_filter. reflexivity.
Qed.

Lemma fold_Qadd_sum (l : list Q) :
  forall a, (fold_left Qadd l a == a + fold_right Qplus 0 l)%Q.
Proof.
  induction l as [|x l IH]; intro a; cbn [fold_left fold_right].
  - lra.
  - rewrite IH, Qadd_correct. lra.
Qed.

Lemma Qsum_sum (l : list Q) : (Qsum l == fold_right Qplus 0 l)%Q.
Proof.
  destruct l as [|x l]; [reflexivity|].
  unfold Qsum. rewrite fold_Qadd_sum. cbn [fold_right]. lra.
Qed.

Lemma sums_on_simplex (scores : list (Q * Q)) :
  Forall (fun s => (fst s + snd s == 1)%Q) scores ->
  (fold_right Qplus 0 (map fst scores)
   + fold_right Qplus 0 (map snd scores) == inject_Z (len scores))%Q.
Proof.
  induction 1 as [|s scores Hs _ IH].
  - reflexivity.
  - unfold len in *. cbn [map fold_right Datatypes.length].
    rewrite Nat2Z.inj_succ, <- Z.add_1_r, inject_Z_plus.
    change (inject_Z 1) with 1%Q. lra.
Qed.

Lemma averages_on_simplex (scores : list (Q * Q)) :
  scores <> [] ->
  Forall (fun s => (fst s + snd s == 1)%Q) scores ->
  (fst (average_scores scores) + snd (average_scores scores) == 1)%Q.
Proof.
  intros Hne Hs. unfold average_scores, np_mean. cbn [fst snd].
  rewrite !Qred_correct, !Qsum_sum.
  unfold len. rewrite !length_map.
  pose proof (sums_on_simplex scores Hs) as H. unfold len in H.
  assert (Hn : ~ (inject_Z (Z.of_nat (Datatypes.length scores)) == 0)%Q).
  { destruct scores as [|s scores]; [contradiction|].
    cbn [Datatypes.length]. unfold Qeq. cbn. lia. }
  set (n := inject_Z (Z.of_nat (Datatypes.length scores))) in *.
  set (a := fold_right Qplus 0%Q (map fst scores)) in *.
  set (b := fold_right Qplus 0%Q (map snd scores)) in *.
  setoid_replace (a / n + b / n)%Q with ((a + b) / n)%Q by (field; exact Hn).
  rewrite H. field. exact Hn.
Qed.

(** X16. When the two scores of every image add up to 1, as the sums over
    a probability vector of all 23 prompts do, the 25% floor never
    decides: the request is accepted exactly when the average glasses
    score is above one half. *)
Theorem floor_redundant_on_probabilities (W : World) (c : Clip)
        (paths : list string) (scores : list (Q * Q)) :
  clip W = Some c ->
  load_images W paths <> [] ->
  score_images c (load_images W paths) = Ret scores ->
  Forall (fun s => (fst s + snd s == 1)%Q) scores ->
  (fst (fst (validate_glasses_image W paths)) = true <->
   (1 # 2 < fst (average_scores scores))%Q).
Proof.
  intros Hc Hl Hs Hsum.
  assert (Hne : scores <> []).
  { destruct (load_images W paths) as [|img imgs]; [contradiction|].
    cbn [score_images] in Hs.
    destruct (score_image c img); cbn [bind] in Hs; [|discriminate].
    destruct (score_images c imgs); cbn [bind] in Hs; [|discriminate].
    injection Hs as <-. discriminate. }
  pose proof (averages_on_simplex scores Hne Hsum) as Ha.
  unfold validate_glasses_image. rewrite Hc.
  destruct (load_images W paths) as [|img imgs]; [contradiction|].
  rewrite Hs. cbn [bind].
  destruct (average_scores scores) as [g ng]. cbn [fst snd] in Ha |- *.
  unfold decide_valid. cbn [try_except fst].
  rewrite andb_true_iff, Qgtb_lt, Qgeb_le. unfold MIN_GLASSES_THRESHOLD.
  split; [intros [H1 H2]|intro H; split]; lra.
Qed.

Lemma floor_redundant_on_probabilities_witness :
  fst (fst (validate_glasses_image low_score_world ["gray.png"])) = true <->
  (1 # 2 < fst (average_scores [(1 # 10, 9 # 10)]))%Q.
Proof.
  apply (floor_redundant_on_probabilities
           low_score_world _ ["gray.png"] [(1 # 10, 9 # 10)] eq_refl).
  - discriminate.
  - reflexivity.
  - repeat constructor.
Defined.

(** ** Which path answers a request *)

Lemma list_refs_raises (W : World) (e : string) :
  list_refs W = Raise e -> reference_images W = ListingFails e.
Proof.
  unfold list_refs. destruct (reference_images W); try discriminate.
  intro H. injection H as ->. reflexivity.
Qed.

Lemma simple_match_raises (W : World) (paths : list string) (e : string) :
  simple_match W paths = Raise e -> list_refs W = Raise e.
Proof.
  unfold simple_match. destruct (list_refs W) as [refs|e']; cbn [bind].
  - destruct paths; [discriminate|].
    destruct (match_by_shape _ _ _); discriminate.
  - intro H. injection H as ->. reflexivity.
Qed.

Lemma list_refs_then_simple_match (W : World) (paths : list string) :
  (_ <- list_refs W ;; simple_match W paths) = simple_match W paths.
Proof.
  unfold simple_match. destruct (list_refs W); reflexivity.
Qed.

Lemma embedding_match_empty_index (W : World) (c : Clip)
      (paths : list string) :
  exists e, embedding_match W c [] paths = Raise e.
Proof.
  unfold embedding_match.
  do 3 match goal with
       | |- exists e, bind ?m _ = _ =>
           destruct m; cbn [bind]; [|eexists; reflexivity]
       end.
  cbn [boost_loop bind].
  destruct (argmax _) as [idx|e]; cbn [bind]; [|eexists; reflexivity].
  destruct (index_of _ idx) as [score|e]; cbn [bind];
    [|eexists; reflexivity].
  unfold index_of. destruct idx; eexists; reflexivity.
Qed.

(** X17. An accepted request is answered by [simple_match] whenever the
    model is missing, the index file is missing or unreadable, or the
    cached index is empty: in each of these cases [clip_match] returns, or
    raises, exactly what [simple_match] does. *)
Theorem clip_match_falls_back (W : World) (paths : list string) :
  fst (fst (validate_glasses_image W paths)) = true ->
  clip W = None \/ embeddings_file W = NoCacheFile \/
  embeddings_file W = BadCacheFile \/ embeddings_file W = Cached [] ->
  clip_match W paths = simple_match W paths.
Proof.
  intros Hv Hcase. unfold clip_match.
  destruct (validate_glasses_image W paths) as [[valid conf] reason].
  cbn [fst] in Hv. subst valid. cbn [negb].
  destruct (clip W) as [c|]; [|reflexivity].
  destruct Hcase as [H|[H|[H|H]]]; [discriminate| | |]; rewrite H.
  - apply list_refs_then_simple_match.
  - apply list_refs_then_simple_match.
  - destruct (embedding_match_empty_index W c paths) as [e ->].
    reflexivity.
Qed.

Lemma clip_match_falls_back_witness :
  clip_match mid_gray_world ["gray.png"]
  = simple_match mid_gray_world ["gray.png"].
Proof.
  apply clip_match_falls_back; [reflexivity|left; reflexivity].
Defined.

Lemma mapM_opens {A} (W : World) (f : grid rgb -> A) (paths : list string) :
  forall ups,
    mapM (fun p => img <- image_open W p ;; Ret (f img)) paths = Ret ups ->
    forallb (opens W) paths = true /\
    Datatypes.length ups = Datatypes.length paths.
Proof.
  induction paths as [|p paths IH]; intros ups H; cbn [mapM] in H.
  - injection H as <-. split; reflexivity.
  - cbn [forallb]. unfold opens at 1.
    destruct (image_open W p) as [img|e]; cbn [bind] in H; [|discriminate].
    destruct (mapM _ paths) as [rest|e]; cbn [bind] in H; [|discriminate].
    injection H as <-. destruct (IH rest eq_refl) as [H1 H2].
    split; [exact H1|cbn; rewrite H2; reflexivity].
Qed.

(** What an answer of the [try] block of [clip_match] is made of. *)
Lemma embedding_match_answer (W : World) (c : Clip)
      (refs paths : list string) (d : dict) :
  embedding_match W c refs paths = Ret d ->
  exists ups sims score ref,
    clip_sims c ups = Ret sims /\ In score sims /\ In ref refs /\
    forallb (opens W) paths = true /\ paths <> [] /\
    d = [ ("best_model", VStr (fst (splitext ref) ++ ".glb"));
          ("confidence", VNum (py_round ((score + 1) / 2) 3));
          ("source_image", VStr ref);
          ("matched", VBool true);
          ("method", VStr "clip_cached") ]
        ++ properties_dict (extract_glasses_properties W paths).
Proof.
  unfold embedding_match. intro H.
  destruct (mapM _ paths) as [ups|e] eqn:Hups; cbn [bind] in H;
    [|discriminate].
  destruct (clip_sims c ups) as [sims|e] eqn:Hsims; cbn [bind] in H;
    [|discriminate].
  destruct (index_of ups 0) as [first|e] eqn:Hfirst; cbn [bind] in H;
    [|discriminate].
  destruct (boost_loop _ 0 refs sims) as [boosted|e]; cbn [bind] in H;
    [|discriminate].
  destruct (argmax boosted) as [idx|e]; cbn [bind] in H; [|discriminate].
  destruct (index_of sims idx) as [score|e] eqn:Hscore; cbn [bind] in H;
    [|discriminate].
  destruct (index_of refs idx) as [ref|e] eqn:Href; cbn [bind] in H;
    [|discriminate].
  injection H as <-.
  exists ups, sims, score, ref.
  destruct (mapM_opens _ _ _ _ Hups) as [Hopen Hlen].
  split; [exact Hsims|].
  split; [exact (nth_error_In _ _ (index_of_Ret _ _ _ Hscore))|].
  split; [exact (nth_error_In _ _ (index_of_Ret _ _ _ Href))|].
  split; [exact Hopen|].
  split; [|reflexivity].
  intros ->. destruct ups; [discriminate Hfirst|discriminate Hlen].
Qed.

(** The methods and confidences [simple_match] can report. *)
Lemma simple_match_answers (W : World) (paths : list string) (d : dict) :
  simple_match W paths = Ret d ->
  In (get d "method", get d "confidence")
     [ (Some (VStr "shape_match"), Some (VNum (3 # 4)));
       (Some (VStr "fallback"), Some (VNum (3 # 5)));
       (Some (VStr "default"), Some (VNum (1 # 2))) ].
Proof.
  unfold simple_match.
  destruct (list_refs W) as [refs|e]; cbn [bind]; [|discriminate].
  assert (Hg : forall props,
             In (get (match refs with
                      | ref0 :: _ =>
                          [ ("best_model",
                             VStr (fst (splitext ref0) ++ ".glb"));
                            ("confidence", VNum (3 # 5));
                            ("source_image", VStr ref0);
                            ("matched", VBool true);
                            ("method", VStr "fallback") ]
                          ++ properties_dict props
                      | [] =>
                          [ ("best_model", VStr "default.glb");
                            ("confidence", VNum (1 # 2));
                            ("source_image", VStr "none");
                            ("matched", VBool true);
                            ("method", VStr "default") ]
                          ++ properties_dict props
                      end) "method",
                 get (match refs with
                      | ref0 :: _ =>
                          [ ("best_model",
                             VStr (fst (splitext ref0) ++ ".glb"));
                            ("confidence", VNum (3 # 5));
                            ("source_image", VStr ref0);
                            ("matched", VBool true);
                            ("method", VStr "fallback") ]
                          ++ properties_dict props
                      | [] =>
                          [ ("best_model", VStr "default.glb");
                            ("confidence", VNum (1 # 2));
                            ("source_image", VStr "none");
                            ("matched", VBool true);
                            ("method", VStr "default") ]
                          ++ properties_dict props
                      end) "confidence")
                [ (Some (VStr "shape_match"), Some (VNum (3 # 4)));
                  (Some (VStr "fallback"), Some (VNum (3 # 5)));
                  (Some (VStr "default"), Some (VNum (1 # 2))) ]).
  { intro props. destruct refs; [right; right; left|right; left];
      reflexivity. }
  destruct paths as [|p paths].
  - intro H. injection H as <-. apply Hg.
  - destruct (match_by_shape W (p :: paths) _) as [r|] eqn:Hm.
    + intro H. injection H as <-. left.
      unfold match_by_shape in Hm.
      destruct (models_of W) as [|m ms]; [discriminate|].
      injection Hm as <-.
      assert (Hc : String.eqb (detect_glasses_shape W (p :: paths))
                              "classic" = false).
      { apply String.eqb_neq. intro Heq.
        pose proof (detect_glasses_shape_in W (p :: paths)) as Hin.
        rewrite Heq in Hin. cbn in Hin.
        repeat (destruct Hin as [Hin|Hin]; [discriminate|]). exact Hin. }
      cbn. rewrite Hc. reflexivity.
    + intro H. injection H as <-. apply Hg.
Qed.

(** The embedding path on the band photo, run once. *)
Lemma band_photo_run :
  exists d,
    clip_match (matching_world false band_image) ["upload.jpg"] = Ret d /\
    get d "method" = Some (VStr "clip_cached") /\
    get d "matched" = Some (VBool true) /\
    get d "source_image" = Some (VStr "square_b.jpg").
Proof. eexists. vm_compute. repeat split. Qed.

(** X18. An answer with method clip_cached has a loaded model and a cached
    index behind it, every uploaded path opened as an image, and the entry
    it names is one of the cached index, with the model name derived from
    it; nothing else produces that method. *)
Theorem clip_cached_needs_index (W : World) (paths : list string)
        (d : dict) :
  clip_match W paths = Ret d ->
  get d "method" = Some (VStr "clip_cached") ->
  exists c refs ref,
    clip W = Some c /\ embeddings_file W = Cached refs /\
    fst (fst (validate_glasses_image W paths)) = true /\
    paths <> [] /\ forallb (opens W) paths = true /\
    In ref refs /\
    get d "source_image" = Some (VStr ref) /\
    get d "best_model" = Some (VStr (fst (splitext ref) ++ ".glb")).
Proof.
  unfold clip_match.
  destruct (validate_glasses_image W paths) as [[valid conf] reason].
  destruct valid; cbn [negb fst].
  2:{ intro H. injection H as <-. discriminate. }
  assert (Hs : forall d, simple_match W paths = Ret d ->
                         get d "method" <> Some (VStr "clip_cached")).
  { intros d' H' Hm. pose proof (simple_match_answers _ _ _ H') as Hin.
    rewrite Hm in Hin. cbn in Hin.
    repeat (destruct Hin as [Hin|Hin]; [discriminate|]). exact Hin. }
  intros H Hm.
  destruct (clip W) as [c|]; [|destruct (Hs _ H Hm)].
  destruct (embeddings_file W) as [| |refs].
  - rewrite list_refs_then_simple_match in H. destruct (Hs _ H Hm).
  - rewrite list_refs_then_simple_match in H. destruct (Hs _ H Hm).
  - destruct (embedding_match W c refs paths) as [r|e] eqn:He;
      [|destruct (Hs _ H Hm)].
    injection H as <-.
    destruct (embedding_match_answer _ _ _ _ _ He)
      as (ups & sims & score & ref & _ & _ & Hin & Hopen & Hne & ->).
    exists c, refs, ref. repeat split; assumption.
Qed.

Lemma clip_cached_needs_index_witness :
  exists ref,
    In ref ["round_a.jpg"; "square_b.jpg"] /\
    exists d,
      clip_match (matching_world false band_image) ["upload.jpg"] = Ret d /\
      get d "source_image" = Some (VStr ref).
Proof.
  destruct band_photo_run as (d & Hrun & Hm & _ & _).
  destruct (clip_cached_needs_index _ _ _ Hrun Hm)
    as (c & refs & ref & _ & Hc & _ & _ & _ & Hin & Hsrc & _).
  injection Hc as <-.
  exists ref. split; [exact Hin|]. exists d. split; assumption.
Defined.

Lemma py_round3_unit (x : Q) :
  (0 <= x)%Q -> (x <= 1)%Q -> (0 <= py_round x 3)%Q /\ (py_round x 3 <= 1)%Q.
Proof.
  intros Ha Hb. unfold py_round.
  change (inject_Z (10 ^ Z.of_nat 3)) with (inject_Z 1000).
  assert (Ha' : (inject_Z 0 <= x * inject_Z 1000)%Q).
  { unfold Qle in *. cbn in *. lia. }
  assert (Hb' : (x * inject_Z 1000 <= inject_Z 1000)%Q).
  { unfold Qle in *. cbn in *. rewrite Pos.mul_1_r. lia. }
  destruct (round_half_even_bounds _ _ _ Ha' Hb') as [H1 H2].
  rewrite Qred_correct.
  generalize dependent (round_half_even (x * inject_Z 1000)). intros r H1 H2.
  split; unfold Qle, Qdiv, Qmult, Qinv; cbn; lia.
Qed.

(** X19. Every matched answer of [clip_match] reports a confidence between
    0 and 1, provided the similarities the model returns are cosines,
    between -1 and 1. *)
Theorem confidence_in_unit_interval (W : World) (paths : list string)
        (d : dict) :
  (forall c ups sims,
      clip W = Some c -> clip_sims c ups = Ret sims ->
      Forall (fun s => (- (1) <= s)%Q /\ (s <= 1)%Q) sims) ->
  clip_match W paths = Ret d ->
  get d "matched" = Some (VBool true) ->
  exists q, get d "confidence" = Some (VNum q) /\ (0 <= q)%Q /\ (q <= 1)%Q.
Proof.
  intros Hcos. unfold clip_match.
  destruct (validate_glasses_image W paths) as [[valid conf] reason].
  destruct valid; cbn [negb].
  2:{ intro H. injection H as <-. discriminate. }
  assert (Hs : forall d, simple_match W paths = Ret d ->
                 exists q, get d "confidence" = Some (VNum q) /\
                           (0 <= q)%Q /\ (q <= 1)%Q).
  { intros d' H'. pose proof (simple_match_answers _ _ _ H') as Hin.
    cbn in Hin.
    destruct Hin as [Hin|[Hin|[Hin|[]]]]; injection Hin as _ Hc;
      rewrite <- Hc; eexists; (split; [reflexivity|]);
      split; unfold Qle; cbn; lia. }
  intros H _.
  destruct (clip W) as [c|]; [|exact (Hs _ H)].
  destruct (embeddings_file W) as [| |refs].
  - rewrite list_refs_then_simple_match in H. exact (Hs _ H).
  - rewrite list_refs_then_simple_match in H. exact (Hs _ H).
  - destruct (embedding_match W c refs paths) as [r|e] eqn:He;
      [|exact (Hs _ H)].
    injection H as <-.
    destruct (embedding_match_answer _ _ _ _ _ He)
      as (ups & sims & score & ref & Hsims & Hin & _ & _ & _ & ->).
    pose proof (Hcos c ups sims eq_refl Hsims) as Hall.
    rewrite Forall_forall in Hall. destruct (Hall _ Hin) as [Hlo Hhi].
    eexists. split; [reflexivity|].
    apply py_round3_unit.
    + apply Qle_shift_div_l; [reflexivity|]. lra.
    + apply Qle_shift_div_r; [reflexivity|]. lra.
Qed.

Lemma confidence_in_unit_interval_witness :
  exists d q,
    clip_match (matching_world false band_image) ["upload.jpg"] = Ret d /\
    get d "confidence" = Some (VNum q) /\ (0 <= q)%Q /\ (q <= 1)%Q.
Proof.
  destruct band_photo_run as (d & Hrun & _ & Hm & _).
  assert (Hcos : forall c ups sims,
             clip (matching_world false band_image) = Some c ->
             clip_sims c ups = Ret sims ->
             Forall (fun s => (- (1) <= s)%Q /\ (s <= 1)%Q) sims).
  { intros c ups sims Hc Hsims. injection Hc as <-.
    injection Hsims as <-.
    repeat constructor; unfold Qle; cbn; lia. }
  destruct (confidence_in_unit_interval _ _ _ Hcos Hrun Hm)
    as (q & Hq & Hlo & Hhi).
  exists d, q. repeat split; assumption.
Defined.

(** ** The process boundary *)

Lemma clip_match_raises (W : World) (paths : list string) (e : string) :
  clip_match W paths = Raise e -> reference_images W = ListingFails e.
Proof.
  unfold clip_match.
  destruct (validate_glasses_image W paths) as [[valid conf] reason].
  destruct valid; cbn [negb]; [|discriminate].
  intro H. apply list_refs_raises, (simple_match_raises W paths).
  destruct (clip W) as [c|]; [|exact H].
  destruct (embeddings_file W) as [| |refs];
    try (rewrite list_refs_then_simple_match in H; exact H).
  destruct (embedding_match W c refs paths); [discriminate|exact H].
Qed.

Lemma build_embeddings_raises (W : World) (e : string) :
  build_embeddings W = Raise e -> reference_images W = ListingFails e.
Proof.
  unfold build_embeddings. destruct (clip W); [|discriminate].
  destruct (list_refs W) as [refs|e'] eqn:E; cbn [bind].
  - destruct refs; discriminate.
  - intro H. injection H as <-. exact (list_refs_raises _ _ E).
Qed.

Lemma main_raises (W : World) (argv : list string) (e : string) :
  main W argv = Raise e -> reference_images W = ListingFails e.
Proof.
  unfold main. destruct (existsb _ argv).
  - destruct (build_embeddings W) as [ok|e'] eqn:E; cbn [bind];
      [discriminate|].
    intro H. injection H as <-. exact (build_embeddings_raises _ _ E).
  - destruct (filter _ (tl argv)); [discriminate|].
    apply clip_match_raises.
Qed.

Lemma main_method_not_crash (W : World) (argv : list string) (d : dict) :
  main W argv = Ret d -> get d "method" <> Some (VStr "crash_handler").
Proof.
  unfold main. destruct (existsb _ argv).
  - destruct (build_embeddings W); cbn [bind]; [|discriminate].
    intro H. injection H as <-. discriminate.
  - destruct (filter _ (tl argv)) as [|img imgs].
    + intro H. injection H as <-. discriminate.
    + intro H. destruct (clip_match_record _ _ _ H) as [Hm|[_ Hm]].
      * revert H. unfold clip_match.
        destruct (validate_glasses_image W (img :: imgs))
          as [[valid conf] reason].
        destruct valid; cbn [negb].
        2:{ intro H. injection H as <-. discriminate. }
        assert (Hs : forall d, simple_match W (img :: imgs) = Ret d ->
                       get d "method" <> Some (VStr "crash_handler")).
        { intros d' H' Hc.
          pose proof (simple_match_answers _ _ _ H') as Hin.
          rewrite Hc in Hin. cbn in Hin.
          repeat (destruct Hin as [Hin|Hin]; [discriminate|]). exact Hin. }
        destruct (clip W) as [c|]; [|apply Hs].
        destruct (embeddings_file W) as [| |refs];
          try (rewrite list_refs_then_simple_match; apply Hs).
        destruct (embedding_match W c refs (img :: imgs)) as [r|e] eqn:He;
          [|apply Hs].
        intro H. injection H as <-.
        destruct (embedding_match_answer _ _ _ _ _ He)
          as (ups & sims & score & ref & _ & _ & _ & _ & _ & ->).
        discriminate.
      * rewrite Hm. discriminate.
Qed.

(** X20. The record of the outermost handler appears only when the
    reference directory cannot be listed: every other failure is absorbed
    before it reaches the handler, and no other record carries the method
    crash_handler. The error it prints is the error of the listing. *)
Theorem crash_record_only_on_listing_failure (W : World)
        (argv : list string) :
  get (script W argv) "method" = Some (VStr "crash_handler") ->
  exists e,
    reference_images W = ListingFails e /\
    script W argv = [ ("error", VStr e); ("matched", VBool false);
                      ("method", VStr "crash_handler") ].
Proof.
  unfold script. destruct (main W argv) as [d|e] eqn:Hmain;
    cbn [try_except].
  - intro H. destruct (main_method_not_crash _ _ _ Hmain H).
  - intros _. exists e. split; [exact (main_raises _ _ _ Hmain)|reflexivity].
Qed.

Lemma crash_record_only_on_listing_failure_witness :
  exists e,
    reference_images unreadable_refs_world = ListingFails e /\
    script unreadable_refs_world ["match.py"; "gray.png"]
    = [ ("error", VStr e); ("matched", VBool false);
        ("method", VStr "crash_handler") ].
Proof.
  exact (crash_record_only_on_listing_failure
           unreadable_refs_world ["match.py"; "gray.png"] eq_refl).
Defined.

Lemma mapM_open_all (W : World) (paths : list string) :
  forallb (opens W) paths = true ->
  mapM (image_open W) paths = Ret (load_images W paths).
Proof.
  induction paths as [|p paths IH]; [reflexivity|].
  cbn [forallb]. unfold opens at 1. cbn [mapM load_images].
  destruct (image_open W p) as [img|e]; cbn [bind andb]; [|discriminate].
  intro H. rewrite (IH H). reflexivity.
Qed.

Lemma mapM_open_fails (W : World) (paths : list string) :
  forallb (opens W) paths = false ->
  exists e, mapM (image_open W) paths = Raise e.
Proof.
  induction paths as [|p paths IH]; [discriminate|].
  cbn [forallb mapM]. unfold opens at 1.
  destruct (image_open W p) as [img|e]; cbn [bind andb].
  - intro H. destruct (IH H) as [e ->]. eexists. reflexivity.
  - intros _. eexists. reflexivity.
Qed.

(** X21. [build_embeddings] reports success exactly when the model loads,
    the reference directory lists at least one image, every listed image
    opens, and computing and saving the index succeeds; a single
    unreadable reference image makes the whole build report failure. *)
Theorem build_succeeds_iff (W : World) :
  build_embeddings W = Ret true <->
  exists c refs,
    clip W = Some c /\ list_refs W = Ret refs /\ refs <> [] /\
    forallb (opens W) (map (fun f => REF_DIR ++ "/" ++ f)%string refs)
    = true /\
    clip_build c
      (load_images W (map (fun f => REF_DIR ++ "/" ++ f)%string refs))
    = Ret tt.
Proof.
  unfold build_embeddings. split.
  - destruct (clip W) as [c|]; [|discriminate].
    destruct (list_refs W) as [refs|e]; cbn [bind]; [|discriminate].
    destruct refs as [|r refs]; [discriminate|].
    set (ref_paths := map _ (r :: refs)).
    intro H. exists c, (r :: refs).
    split; [reflexivity|]. split; [reflexivity|]. split; [discriminate|].
    destruct (forallb (opens W) ref_paths) eqn:Hall.
    + split; [exact Hall|].
      rewrite (mapM_open_all _ _ Hall) in H. cbn [bind] in H.
      fold ref_paths.
      destruct (clip_build c _) as [[]|e]; [reflexivity|discriminate].
    + destruct (mapM_open_fails _ _ Hall) as [e He].
      rewrite He in H. discriminate.
  - intros (c & refs & -> & -> & Hne & Hall & Hbuild). cbn [bind].
    destruct refs as [|r refs]; [contradiction|].
    rewrite (mapM_open_all _ _ Hall). cbn [bind]. rewrite Hbuild.
    reflexivity.
Qed.

(** X22. The record "No images" is printed exactly when --build is not
    among the arguments and every argument after the program name starts
    with two dashes; the program name itself is never taken as an image. *)
Theorem no_images_record_iff (W : World) (argv : list string) :
  main W argv = Ret [ ("error", VStr "No images"); ("matched", VBool false) ]
  <->
  existsb (String.eqb "--build") argv = false /\
  forallb (fun a => startswith a "--") (tl argv) = true.
Proof.
  unfold main. destruct (existsb _ argv).
  - split; [|intros [H _]; discriminate].
    destruct (build_embeddings W); cbn [bind]; discriminate.
  - destruct (filter _ (tl argv)) as [|img imgs] eqn:Hf.
    + split; [|reflexivity]. intros _. split; [reflexivity|].
      apply forallb_forall. intros a Ha.
      destruct (startswith a "--") eqn:E; [reflexivity|].
      assert (Hin : In a (filter (fun a => negb (startswith a "--"))
                                 (tl argv))).
      { apply filter_In. split; [exact Ha|]. rewrite E. reflexivity. }
      rewrite Hf in Hin. destruct Hin.
    + split.
      * intro H. destruct (clip_match_record _ _ _ H) as [[Hm _]|[_ Hm]];
          discriminate.
      * intros [_ Hall]. rewrite forallb_forall in Hall.
        assert (Hin : In img (filter (fun a => negb (startswith a "--"))
                                     (tl argv))).
        { rewrite Hf. left. reflexivity. }
        apply filter_In in Hin. destruct Hin as [Hin Hneg].
        rewrite (Hall _ Hin) in Hneg. discriminate.
Qed.

(** ** The background suppressor *)

Lemma map2_length {A B C} (f : A -> B -> C) (l1 : list A) :
  forall l2,
    Datatypes.length (map2 f l1 l2)
    = Nat.min (Datatypes.length l1) (Datatypes.length l2).
Proof.
  induction l1 as [|a l1 IH]; intros [|b l2]; cbn; try reflexivity.
  rewrite IH. reflexivity.
Qed.

Lemma map2_nth_error {A B C} (f : A -> B -> C) (l1 : list A) :
  forall l2 i,
    nth_error (map2 f l1 l2) i
    = match nth_error l1 i, nth_error l2 i with
      | Some a, Some b => Some (f a b)
      | _, _ => None
      end.
Proof.
  induction l1 as [|a l1 IH]; intros [|b l2] [|i]; cbn; try reflexivity.
  - destruct (nth_error l1 i); reflexivity.
  - apply IH.
Qed.

Lemma map2_Forall {A B C} (f : A -> B -> C) (P : A -> Prop) (Q : B -> Prop)
      (R : C -> Prop) (l1 : list A) :
  (forall a b, P a -> Q b -> R (f a b)) ->
  forall l2, Forall P l1 -> Forall Q l2 -> Forall R (map2 f l1 l2).
Proof.
  intros Hf. induction l1 as [|a l1 IH]; intros [|b l2] H1 H2; cbn;
    try constructor.
  - apply Hf; [exact (Forall_inv H1)|exact (Forall_inv H2)].
  - apply IH; [exact (Forall_inv_tail H1)|exact (Forall_inv_tail H2)].
Qed.

Lemma firstn_In {A} (n : nat) (l : list A) (x : A) :
  In x (firstn n l) -> In x l.
Proof.
  intro H. rewrite <- (firstn_skipn n l). apply in_or_app. left. exact H.
Qed.

Lemma removelast_In {A} (l : list A) (x : A) :
  In x (removelast l) -> In x l.
Proof. rewrite removelast_firstn_len. apply firstn_In. Qed.

Lemma removelast_length {A} (l : list A) :
  Datatypes.length (removelast l) = (Datatypes.length l - 1)%nat.
Proof. rewrite removelast_firstn_len, length_firstn. lia. Qed.

Lemma tl_In {A} (l : list A) (x : A) : In x (tl l) -> In x l.
Proof. destruct l; [exact (fun H => H)|right; assumption]. Qed.

Lemma tl_length {A} (l : list A) :
  Datatypes.length (tl l) = (Datatypes.length l - 1)%nat.
Proof. destruct l; cbn; lia. Qed.

Lemma windows5_length {A} (l : list A) :
  Datatypes.length (windows 5 l) = (Datatypes.length l - 4)%nat.
Proof.
  induction l as [|a l IH]; [reflexivity|].
  cbn [windows].
  destruct (Nat.leb 5 (Datatypes.length (a :: l))) eqn:E.
  - apply Nat.leb_le in E. cbn [Datatypes.length] in *. rewrite IH. lia.
  - apply Nat.leb_gt in E. cbn [Datatypes.length] in *. lia.
Qed.

Lemma windows5_In {A} (l : list A) (win : list A) (x : A) :
  In win (windows 5 l) -> In x win -> In x l.
Proof.
  induction l as [|a l IH]; [intros []|].
  cbn [windows].
  destruct (Nat.leb 5 (Datatypes.length (a :: l))); [|intros []].
  intros [<-|Hw] Hx.
  - exact (firstn_In _ _ _ Hx).
  - right. exact (IH Hw Hx).
Qed.

Lemma reflect_range (n k : Z) : 0 < n -> 0 <= reflect n k < n.
Proof.
  intro Hn. unfold reflect.
  pose proof (Z.mod_pos_bound k (2 * n) ltac:(lia)) as Hm.
  destruct (Z.ltb_spec (k mod (2 * n)) n); lia.
Qed.

Lemma pad2_length {A} (d : A) (l : list A) :
  Datatypes.length (pad2 d l) = (Datatypes.length l + 4)%nat.
Proof.
  unfold pad2. rewrite !length_app, !length_map. cbn. lia.
Qed.

Lemma pad2_In {A} (d : A) (l : list A) (x : A) :
  l <> [] -> In x (pad2 d l) -> In x l.
Proof.
  intros Hne. unfold pad2.
  set (n := Z.of_nat (Datatypes.length l)).
  assert (Hn : 0 < n).
  { destruct l; [contradiction|]. unfold n. cbn [Datatypes.length]. lia. }
  assert (Hpick : forall k, In (nth (Z.to_nat (reflect n k)) l d) l).
  { intro k. apply nth_In. pose proof (reflect_range n k Hn). lia. }
  intro H. apply in_app_or in H. destruct H as [H|H].
  - cbn in H. destruct H as [<-|[<-|[]]]; apply Hpick.
  - apply in_app_or in H. destruct H as [H|H]; [exact H|].
    cbn in H. destruct H as [<-|[<-|[]]]; apply Hpick.
Qed.

Lemma columns_length {A} (w : nat) (rows : list (list (list A))) :
  Forall (fun r => Datatypes.length r = w) rows ->
  Datatypes.length (fold_right (map2 (@app A)) (repeat [] w) rows) = w.
Proof.
  induction 1 as [|r rows Hr _ IH]; cbn [fold_right].
  - apply repeat_length.
  - rewrite map2_length, Hr, IH. apply Nat.min_id.
Qed.

Lemma rect_width {A} (h w : nat) (g : grid A) :
  rect h w g -> g <> [] -> width g = w.
Proof.
  intros [_ Hw] Hne. destruct g as [|r g]; [contradiction|].
  exact (Forall_inv Hw).
Qed.

Lemma windows5x5_rect (h w : nat) (g : grid Q) :
  rect h w g -> rect h w (windows5x5 g).
Proof.
  intros Hg. destruct Hg as [Hh Hw]. unfold windows5x5. split.
  - rewrite length_map, windows5_length, pad2_length, length_map. lia.
  - apply Forall_map, Forall_forall. intros rows5 Hin.
    assert (Hne : g <> []).
    { intros ->. cbn in Hin. exact Hin. }
    rewrite (rect_width h w g (conj Hh Hw) Hne).
    apply columns_length, Forall_map, Forall_forall. intros r Hr.
    rewrite windows5_length.
    assert (Hr' : In r (map (pad2 (0 # 1)%Q) g)).
    { apply (pad2_In []).
      - destruct g; [contradiction|discriminate].
      - exact (windows5_In _ _ _ Hin Hr). }
    apply in_map_iff in Hr'. destruct Hr' as (row & <- & Hrow).
    rewrite pad2_length. rewrite Forall_forall in Hw.
    rewrite (Hw _ Hrow). lia.
Qed.

Lemma grid_map_rect {A B} (f : A -> B) (h w : nat) (g : grid A) :
  rect h w g -> rect h w (grid_map f g).
Proof.
  intros [Hh Hw]. unfold grid_map. split.
  - rewrite length_map. exact Hh.
  - apply Forall_map. revert Hw. apply Forall_impl.
    intros row Hrow. rewrite length_map. exact Hrow.
Qed.

Lemma map2g_rect {A B C} (f : A -> B -> C) (h w : nat)
      (g1 : grid A) (g2 : grid B) :
  rect h w g1 -> rect h w g2 -> rect h w (map2g f g1 g2).
Proof.
  intros [Hh1 Hw1] [Hh2 Hw2]. unfold map2g. split.
  - rewrite map2_length, Hh1, Hh2. apply Nat.min_id.
  - revert Hw1 Hw2. apply map2_Forall.
    intros a b Ha Hb. rewrite map2_length, Ha, Hb. apply Nat.min_id.
Qed.

Lemma px_map2g {A B C} (f : A -> B -> C) (g1 : grid A) (g2 : grid B)
      (i j : nat) :
  px (map2g f g1 g2) i j
  = match px g1 i j, px g2 i j with
    | Some a, Some b => Some (f a b)
    | _, _ => None
    end.
Proof.
  unfold px, map2g. rewrite map2_nth_error.
  destruct (nth_error g1 i) as [r1|]; [|reflexivity].
  destruct (nth_error g2 i) as [r2|].
  - apply map2_nth_error.
  - destruct (nth_error r1 j); reflexivity.
Qed.

Lemma px_grid_map {A B} (f : A -> B) (g : grid A) (i j : nat) :
  px (grid_map f g) i j = option_map f (px g i j).
Proof.
  unfold px, grid_map. rewrite nth_error_map.
  destruct (nth_error g i) as [row|]; [|reflexivity].
  cbn. apply nth_error_map.
Qed.

Lemma px_inside {A} (h w : nat) (g : grid A) (i j : nat) (a : A) :
  rect h w g -> px g i j = Some a -> (i < h)%nat /\ (j < w)%nat.
Proof.
  intros [Hh Hw] H. unfold px in H.
  destruct (nth_error g i) as [row|] eqn:E; [|discriminate].
  split.
  - rewrite <- Hh. apply nth_error_Some. rewrite E. discriminate.
  - rewrite Forall_forall in Hw. rewrite <- (Hw row (nth_error_In _ _ E)).
    apply nth_error_Some. rewrite H. discriminate.
Qed.

Lemma rect_px {A} (h w : nat) (g : grid A) (i j : nat) :
  rect h w g -> (i < h)%nat -> (j < w)%nat -> exists a, px g i j = Some a.
Proof.
  intros [Hh Hw] Hi Hj. unfold px.
  destruct (nth_error g i) as [row|] eqn:E.
  - rewrite Forall_forall in Hw.
    pose proof (Hw row (nth_error_In _ _ E)) as Hrow.
    destruct (nth_error row j) as [a|] eqn:Ej; [exists a; reflexivity|].
    apply nth_error_None in Ej. lia.
  - apply nth_error_None in E. lia.
Qed.

(** The row of [dilate] for a row and its two neighbours. *)
Lemma dilate_row_length (w : nat) (row up down : list bool) :
  Datatypes.length row = w -> Datatypes.length up = w ->
  Datatypes.length down = w ->
  Datatypes.length
    (map2 orb (map2 orb row (map2 orb (shift_right row) (shift_left row)))
          (map2 orb up down)) = w.
Proof.
  intros Hr Hu Hd. rewrite !map2_length, Hr, Hu, Hd.
  unfold shift_right, shift_left. cbn [Datatypes.length].
  rewrite length_app, removelast_length, tl_length, Hr.
  cbn [Datatypes.length]. lia.
Qed.

Lemma dilate_neighbours (h w : nat) (m : grid bool)
      (ab : list bool * list bool) :
  rect h w m -> m <> [] ->
  In ab (combine (repeat false (width m) :: removelast m)
                 (tl m ++ [repeat false (width m)])) ->
  Datatypes.length (fst ab) = w /\ Datatypes.length (snd ab) = w.
Proof.
  intros Hm Hne Hin. destruct ab as [up down]. cbn [fst snd].
  pose proof (rect_width _ _ _ Hm Hne) as Hwd.
  destruct Hm as [_ Hw]. rewrite Forall_forall in Hw.
  split.
  - apply in_combine_l in Hin. destruct Hin as [<-|Hin].
    + rewrite repeat_length. exact Hwd.
    + exact (Hw _ (removelast_In _ _ Hin)).
  - apply in_combine_r in Hin. apply in_app_or in Hin.
    destruct Hin as [Hin|[<-|[]]].
    + exact (Hw _ (tl_In _ _ Hin)).
    + rewrite repeat_length. exact Hwd.
Qed.

Lemma dilate_rect (h w : nat) (m : grid bool) :
  rect h w m -> rect h w (dilate m).
Proof.
  intros Hm. destruct m as [|r0 m0] eqn:Em.
  { exact Hm. }
  rewrite <- Em in *. assert (Hne : m <> []) by (rewrite Em; discriminate).
  clear Em. unfold dilate. split.
  - rewrite map2_length, length_combine. cbn [Datatypes.length].
    rewrite length_app, removelast_length, tl_length.
    destruct Hm as [Hh _]. cbn [Datatypes.length]. lia.
  - apply (map2_Forall _
             (fun row => Datatypes.length row = w)
             (fun ab => Datatypes.length (fst ab) = w /\
                        Datatypes.length (snd ab) = w)).
    + intros row ab Hrow [Hu Hd]. apply dilate_row_length; assumption.
    + exact (proj2 Hm).
    + apply Forall_forall. intros ab Hin.
      exact (dilate_neighbours h w m ab Hm Hne Hin).
Qed.

Lemma dilate_extensive (h w : nat) (m : grid bool) (i j : nat) :
  rect h w m -> px m i j = Some true -> px (dilate m) i j = Some true.
Proof.
  intros Hm Hpx.
  destruct (px_inside _ _ _ _ _ _ Hm Hpx) as [Hi Hj].
  assert (Hne : m <> []).
  { intros ->. destruct i; discriminate Hpx. }
  unfold px in Hpx |- *.
  destruct (nth_error m i) as [row|] eqn:Erow; [|discriminate].
  unfold dilate. rewrite map2_nth_error, Erow.
  set (above := repeat false (width m) :: removelast m).
  set (below := tl m ++ [repeat false (width m)]).
  destruct (nth_error (combine above below) i) as [ab|] eqn:Eab.
  2:{ apply nth_error_None in Eab. rewrite length_combine in Eab.
      unfold above, below in Eab. cbn [Datatypes.length] in Eab.
      rewrite length_app, removelast_length, tl_length in Eab.
      destruct Hm as [Hh _]. cbn [Datatypes.length] in Eab. lia. }
  destruct (dilate_neighbours h w m ab Hm Hne (nth_error_In _ _ Eab))
    as [Hu Hd].
  assert (Hrow : Datatypes.length row = w).
  { destruct Hm as [_ Hw]. rewrite Forall_forall in Hw.
    exact (Hw _ (nth_error_In _ _ Erow)). }
  rewrite !map2_nth_error, Hpx.
  destruct (nth_error (shift_right row) j) as [x|] eqn:Ex.
  2:{ apply nth_error_None in Ex. unfold shift_right in Ex.
      cbn [Datatypes.length] in Ex. rewrite removelast_length in Ex. lia. }
  destruct (nth_error (shift_left row) j) as [y|] eqn:Ey.
  2:{ apply nth_error_None in Ey. unfold shift_left in Ey.
      rewrite length_app, tl_length in Ey. cbn [Datatypes.length] in Ey.
      lia. }
  destruct (nth_error (fst ab) j) as [u|] eqn:Eu.
  2:{ apply nth_error_None in Eu. lia. }
  destruct (nth_error (snd ab) j) as [d|] eqn:Ed.
  2:{ apply nth_error_None in Ed. lia. }
  reflexivity.
Qed.

Lemma dilate_n_rect (n h w : nat) :
  forall m : grid bool, rect h w m -> rect h w (dilate_n n m).
Proof.
  induction n as [|n IH]; intros m Hm; cbn [dilate_n]; [exact Hm|].
  apply IH, dilate_rect, Hm.
Qed.

Lemma dilate_n_extensive (n h w i j : nat) :
  forall m : grid bool,
    rect h w m -> px m i j = Some true ->
    px (dilate_n n m) i j = Some true.
Proof.
  induction n as [|n IH]; intros m Hm Hpx; cbn [dilate_n]; [exact Hpx|].
  apply IH; [apply dilate_rect, Hm|exact (dilate_extensive _ _ _ _ _ Hm Hpx)].
Qed.

Lemma keep_mask_rect (h w : nat) (img : grid rgb) :
  rect h w img -> rect h w (keep_mask img).
Proof.
  intro H. unfold keep_mask. apply dilate_n_rect, map2g_rect.
  - unfold variance_filter.
    apply grid_map_rect, windows5x5_rect, grid_map_rect, H.
  - apply grid_map_rect, H.
Qed.

Lemma keep_mask_dark (h w : nat) (img : grid rgb) (i j : nat) (p : rgb) :
  rect h w img -> px img i j = Some p ->
  Qltb (channel_mean p) 200 = true ->
  px (keep_mask img) i j = Some true.
Proof.
  intros H Hp Hdark. unfold keep_mask.
  destruct (px_inside _ _ _ _ _ _ H Hp) as [Hi Hj].
  assert (Hv : rect h w (variance_filter (grid_map channel_mean img))).
  { unfold variance_filter.
    apply grid_map_rect, windows5x5_rect, grid_map_rect, H. }
  apply (dilate_n_extensive 3 h w).
  - apply map2g_rect; [exact Hv|apply grid_map_rect, H].
  - rewrite px_map2g, px_grid_map, Hp. cbn [option_map].
    destruct (rect_px _ _ _ _ _ Hv Hi Hj) as [v ->].
    rewrite Hdark, orb_true_r. reflexivity.
Qed.

(** X23. On a rectangular image the suppressor keeps the size and never
    moves or recolours a pixel: each pixel of the result is the pixel of
    the upload at the same place, or white; and every pixel whose channel
    mean is below 200 is kept as it is. *)
Theorem suppressor_keeps_or_whitens (W : World) (h w : nat)
        (image : grid rgb) (i j : nat) (p : rgb) :
  rect h w image ->
  px image i j = Some p ->
  rect h w (remove_background W image) /\
  exists q,
    px (remove_background W image) i j = Some q /\
    (q = p \/ q = (255, 255, 255)) /\
    (Qltb (channel_mean p) 200 = true -> q = p).
Proof.
  intros H Hp. unfold remove_background.
  destruct (numpy_available W && scipy_available W)%bool.
  2:{ split; [exact H|]. exists p. split; [exact Hp|].
      split; [left; reflexivity|reflexivity]. }
  pose proof (keep_mask_rect h w image H) as Hk.
  split; [exact (map2g_rect _ _ _ _ _ Hk H)|].
  destruct (px_inside _ _ _ _ _ _ H Hp) as [Hi Hj].
  destruct (rect_px _ _ _ _ _ Hk Hi Hj) as [k Hkeep].
  rewrite px_map2g, Hkeep, Hp.
  destruct p as [[r g] b].
  eexists. split; [reflexivity|]. split.
  - destruct k; [left|right]; reflexivity.
  - intro Hdark.
    rewrite (keep_mask_dark h w image i j _ H Hp Hdark) in Hkeep.
    injection Hkeep as <-. reflexivity.
Qed.

Lemma suppressor_keeps_or_whitens_witness :
  exists q,
    px (remove_background mid_gray_world [[(10, 20, 30); (250, 250, 250)]])
       0 0 = Some q /\
    q = (10, 20, 30).
Proof.
  destruct (suppressor_keeps_or_whitens mid_gray_world 1 2
              [[(10, 20, 30); (250, 250, 250)]] 0 0 (10, 20, 30))
    as (_ & q & Hq & _ & Hdark).
  - split; [reflexivity|repeat constructor].
  - reflexivity.
  - exists q. split; [exact Hq|]. apply Hdark. reflexivity.
Defined.

(** ** File names: the thumbnail generator and the matcher *)

Lemma length_app_string (s t : string) :
  String.length (s ++ t) = (String.length s + String.length t)%nat.
Proof. induction s as [|a s IH]; cbn; [reflexivity|rewrite IH; reflexivity]. Qed.

Lemma append_assoc (s t u : string) : ((s ++ t) ++ u = s ++ (t ++ u))%string.
Proof. induction s as [|a s IH]; cbn; [reflexivity|rewrite IH; reflexivity]. Qed.

Lemma substring_all (s : string) : substring 0 (String.length s) s = s.
Proof. induction s as [|a s IH]; cbn; [reflexivity|rewrite IH; reflexivity]. Qed.

Lemma substring_0_app (s t : string) :
  substring 0 (String.length s) (s ++ t) = s.
Proof.
  induction s as [|a s IH]; cbn.
  - destruct t; reflexivity.
  - rewrite IH. reflexivity.
Qed.

Lemma substring_skip_app (s t : string) (n m : nat) :
  substring (String.length s + n) m (s ++ t) = substring n m t.
Proof. induction s as [|a s IH]; cbn; [reflexivity|exact IH]. Qed.

Lemma substring_app_l (t : string) :
  forall (s : string) (n : nat),
    (n <= String.length s)%nat ->
    substring n (String.length s - n + String.length t) (s ++ t)
    = (substring n (String.length s - n) s ++ t)%string.
Proof.
  induction s as [|a s IH]; intros n Hn.
  - cbn in Hn. assert (n = O) by lia. subst n. cbn.
    destruct t; cbn; [reflexivity|]. rewrite substring_all. reflexivity.
  - destruct n as [|n].
    + cbn [String.length Nat.sub Nat.add append substring].
      rewrite <- (Nat.sub_0_r (String.length s)) at 1 2.
      rewrite (IH O ltac:(lia)). rewrite Nat.sub_0_r. reflexivity.
    + cbn [String.length Nat.sub append substring].
      apply IH. cbn in Hn. lia.
Qed.

Lemma substring_split (s : string) :
  forall n, (n <= String.length s)%nat ->
    s = (substring 0 n s ++ substring n (String.length s - n) s)%string.
Proof.
  induction s as [|a s IH]; intros n Hn.
  - cbn in Hn. assert (n = O) by lia. subst n. reflexivity.
  - destruct n as [|n].
    + cbn [substring String.length Nat.sub append].
      rewrite substring_all. reflexivity.
    + cbn [substring String.length Nat.sub append].
      rewrite <- (IH n ltac:(cbn in Hn; lia)). reflexivity.
Qed.

Lemma substring_length (s : string) :
  forall n m, (n + m <= String.length s)%nat ->
    String.length (substring n m s) = m.
Proof.
  induction s as [|a s IH]; intros n m H.
  - cbn in H. assert (n = O) by lia. assert (m = O) by lia. subst.
    reflexivity.
  - destruct n as [|n].
    + destruct m as [|m]; [reflexivity|].
      cbn [substring String.length]. rewrite IH; [reflexivity|].
      cbn in H. lia.
    + cbn [substring]. apply IH. cbn in H. lia.
Qed.

Lemma append_inj_length (s1 t1 s2 t2 : string) :
  (s1 ++ t1 = s2 ++ t2)%string -> String.length s1 = String.length s2 ->
  s1 = s2 /\ t1 = t2.
Proof.
  revert s2. induction s1 as [|a s1 IH]; intros [|b s2] H Hl;
    try discriminate Hl.
  - split; [reflexivity|exact H].
  - cbn in H. injection H as -> H. cbn in Hl.
    destruct (IH s2 H ltac:(lia)) as [-> ->]. split; reflexivity.
Qed.

Lemma rfind_app (c : ascii) (s t : string) :
  rfind c (s ++ t)
  = match rfind c t with
    | Some i => Some (String.length s + i)%nat
    | None => rfind c s
    end.
Proof.
  induction s as [|a s IH]; cbn.
  - destruct (rfind c t); reflexivity.
  - rewrite IH. destruct (rfind c t); [reflexivity|].
    destruct (rfind c s); reflexivity.
Qed.

Lemma rfind_bound (c : ascii) (s : string) :
  forall i, rfind c s = Some i -> (i < String.length s)%nat.
Proof.
  induction s as [|a s IH]; intros i H; [discriminate|].
  cbn in H |- *. destruct (rfind c s) as [j|].
  - injection H as <-. specialize (IH j eq_refl). lia.
  - destruct (Ascii.eqb a c); [|discriminate]. injection H as <-. lia.
Qed.

Lemma rfind_after (c : ascii) (s : string) :
  forall i,
    rfind c s = Some i ->
    rfind c (substring (S i) (String.length s - S i) s) = None.
Proof.
  induction s as [|a s IH]; intros i H; [discriminate|].
  cbn [rfind] in H. destruct (rfind c s) as [j|] eqn:E.
  - injection H as <-. cbn [String.length Nat.sub substring].
    exact (IH j eq_refl).
  - destruct (Ascii.eqb a c); [|discriminate]. injection H as <-.
    cbn [String.length Nat.sub substring].
    rewrite Nat.sub_0_r, substring_all. exact E.
Qed.

Lemma rfind_none_cons (c a : ascii) (s : string) :
  rfind c (String a s) = None <-> Ascii.eqb a c = false /\ rfind c s = None.
Proof.
  cbn. destruct (rfind c s); [split; [discriminate|intros [_ H]; discriminate]|].
  destruct (Ascii.eqb a c); split; try discriminate; try (intros [H _]; discriminate).
  - intros _. split; reflexivity.
  - intros _. reflexivity.
Qed.

Lemma rfind_substring_none (c : ascii) (s : string) :
  rfind c s = None -> forall n m, rfind c (substring n m s) = None.
Proof.
  induction s as [|a s IH]; intros H n m.
  - destruct n, m; reflexivity.
  - apply rfind_none_cons in H. destruct H as [Ha Hs].
    destruct n as [|n].
    + destruct m as [|m]; [reflexivity|].
      cbn [substring]. apply rfind_none_cons. split; [exact Ha|].
      apply IH. exact Hs.
    + cbn [substring]. apply IH. exact Hs.
Qed.

Lemma lower_app (s t : string) : lower (s ++ t) = (lower s ++ lower t)%string.
Proof. induction s as [|a s IH]; cbn; [reflexivity|rewrite IH; reflexivity]. Qed.

Lemma lower_length (s : string) : String.length (lower s) = String.length s.
Proof. induction s as [|a s IH]; cbn; [reflexivity|rewrite IH; reflexivity]. Qed.

(** Lower-casing creates and removes neither dots nor slashes. *)
Lemma lower_ascii_dot (a : ascii) :
  Ascii.eqb (lower_ascii a) "." = Ascii.eqb a ".".
Proof. destruct a as [[] [] [] [] [] [] [] []]; reflexivity. Qed.

Lemma lower_ascii_slash (a : ascii) :
  Ascii.eqb (lower_ascii a) "/" = Ascii.eqb a "/".
Proof. destruct a as [[] [] [] [] [] [] [] []]; reflexivity. Qed.

Lemma rfind_lower (c : ascii) (s : string) :
  (forall a, Ascii.eqb (lower_ascii a) c = Ascii.eqb a c) ->
  rfind c (lower s) = rfind c s.
Proof.
  intro Hc. induction s as [|a s IH]; [reflexivity|].
  cbn. rewrite IH, Hc. reflexivity.
Qed.

Lemma not_dot_lower (s : string) :
  existsb not_dot (list_ascii_of_string (lower s))
  = existsb not_dot (list_ascii_of_string s).
Proof.
  induction s as [|a s IH]; [reflexivity|].
  cbn. unfold not_dot at 1 3. rewrite lower_ascii_dot, IH. reflexivity.
Qed.

Lemma not_dot_app (s t : string) :
  existsb not_dot (list_ascii_of_string (s ++ t))
  = (existsb not_dot (list_ascii_of_string s) ||
     existsb not_dot (list_ascii_of_string t))%bool.
Proof.
  induction s as [|a s IH]; [reflexivity|].
  cbn. rewrite IH, orb_assoc. reflexivity.
Qed.

Lemma not_dot_nonempty (s : string) :
  existsb not_dot (list_ascii_of_string s) = true ->
  (0 < String.length s)%nat.
Proof. destruct s; [discriminate|cbn; lia]. Qed.

(** [splitext] of a slash-free stem followed by an extension. *)
Lemma splitext_stem_ext (x e : string) :
  rfind "/" x = None -> rfind "/" e = None -> rfind "." e = None ->
  splitext (x ++ String "." e)
  = if existsb not_dot (list_ascii_of_string x)
    then (x, String "." e)
    else ((x ++ String "." e)%string, "").
Proof.
  intros Hx He Hd. unfold splitext.
  rewrite !rfind_app. cbn [rfind]. rewrite He, Hd, Hx.
  cbn [Ascii.eqb Bool.eqb]. rewrite Nat.add_0_r.
  destruct (Nat.ltb 0 (String.length x)) eqn:El.
  - rewrite Nat.sub_0_r, substring_0_app.
    change (fun a : ascii => negb (Ascii.eqb a ".")) with not_dot.
    destruct (existsb not_dot (list_ascii_of_string x)); [|reflexivity].
    f_equal.
    rewrite length_app_string.
    replace (String.length x + String.length (String "." e)
             - String.length x)%nat
      with (String.length (String "." e)) by lia.
    rewrite <- (Nat.add_0_r (String.length x)) at 1.
    rewrite substring_skip_app. apply substring_all.
  - apply Nat.ltb_ge in El.
    destruct x; [reflexivity|cbn in El; lia].
Qed.

Lemma basename_no_slash (p : string) : rfind "/" (basename p) = None.
Proof.
  unfold basename. destruct (rfind "/" p) as [i|] eqn:E; [|exact E].
  exact (rfind_after _ _ _ E).
Qed.

Lemma basename_dir (d f : string) :
  rfind "/" f = None -> basename (d ++ String "/" f) = f.
Proof.
  intro Hf. unfold basename. rewrite rfind_app. cbn [rfind]. rewrite Hf.
  cbn [Ascii.eqb Bool.eqb]. rewrite Nat.add_0_r, length_app_string.
  cbn [String.length].
  replace (String.length d + S (String.length f) - S (String.length d))%nat
    with (String.length f) by lia.
  replace (S (String.length d)) with (String.length d + 1)%nat by lia.
  rewrite substring_skip_app. cbn [substring]. apply substring_all.
Qed.

Lemma thumb_base_no_slash (key : string) : rfind "/" (thumb_base key) = None.
Proof.
  unfold thumb_base, splitext.
  pose proof (basename_no_slash key) as H.
  destruct (rfind "." (basename key)) as [dot|]; [|exact H].
  destruct (Nat.ltb _ dot); [|exact H].
  destruct (existsb _ _); [|exact H].
  cbn [fst]. apply rfind_substring_none. exact H.
Qed.

Lemma endswith_app (s suffix : string) : endswith (s ++ suffix) suffix = true.
Proof.
  unfold endswith. rewrite length_app_string.
  replace (Nat.leb (String.length suffix)
                   (String.length s + String.length suffix)) with true
    by (symmetry; apply Nat.leb_le; lia).
  replace (String.length s + String.length suffix - String.length suffix)%nat
    with (String.length s + 0)%nat by lia.
  rewrite substring_skip_app, substring_all. apply String.eqb_refl.
Qed.

Lemma endswith_split (s suffix : string) :
  endswith s suffix = true ->
  exists y, s = (y ++ suffix)%string.
Proof.
  unfold endswith. intro H. apply andb_true_iff in H. destruct H as [Hl He].
  apply Nat.leb_le in Hl. apply String.eqb_eq in He.
  exists (substring 0 (String.length s - String.length suffix) s).
  pose proof (substring_split s (String.length s - String.length suffix)
                              ltac:(lia)) as Hs.
  replace (String.length s - (String.length s - String.length suffix))%nat
    with (String.length suffix) in Hs by lia.
  rewrite He in Hs. exact Hs.
Qed.

(** A key that ends in .glb, in any letter case: its file name is a
    slash-free stem, a dot, and three letters. *)
Lemma glb_key_parts (m : string) :
  endswith (lower m) ".glb" = true ->
  exists x e,
    basename m = (x ++ String "." e)%string /\
    rfind "/" x = None /\ rfind "/" e = None /\ rfind "." e = None /\
    existsb not_dot (list_ascii_of_string e) = true.
Proof.
  intro H. pose proof H as Hl. unfold endswith in Hl.
  apply andb_true_iff in Hl. destruct Hl as [Hl _]. apply Nat.leb_le in Hl.
  rewrite lower_length in Hl. cbn [String.length] in Hl.
  destruct (endswith_split _ _ H) as [y' Hy'].
  set (n := (String.length m - 4)%nat).
  pose proof (substring_split m n ltac:(lia)) as Hm.
  set (y := substring 0 n m) in *.
  set (t := substring n (String.length m - n) m) in *.
  assert (Hly : String.length y = n).
  { unfold y. apply substring_length. lia. }
  clearbody y t.
  assert (Hly' : String.length y' = n).
  { apply (f_equal String.length) in Hy'.
    rewrite lower_length, length_app_string in Hy'. cbn in Hy'. lia. }
  assert (Ht : lower t = ".glb").
  { rewrite Hm, lower_app in Hy'.
    apply append_inj_length in Hy'; [exact (proj2 Hy')|].
    rewrite lower_length. lia. }
  destruct t as [|c0 [|c1 [|c2 [|c3 [|c4 t]]]]]; try discriminate Ht.
  cbn in Ht. injection Ht as H0 H1 H2 H3.
  assert (Hc0 : c0 = "."%char).
  { apply Ascii.eqb_eq. rewrite <- lower_ascii_dot, H0. reflexivity. }
  subst c0.
  assert (Hd : forall c l, lower_ascii c = l ->
                 Ascii.eqb l "." = false -> Ascii.eqb l "/" = false ->
                 Ascii.eqb c "." = false /\ Ascii.eqb c "/" = false).
  { intros c l <- Hdot Hsl.
    rewrite lower_ascii_dot in Hdot. rewrite lower_ascii_slash in Hsl.
    split; assumption. }
  destruct (Hd _ _ H1 eq_refl eq_refl) as [D1 S1].
  destruct (Hd _ _ H2 eq_refl eq_refl) as [D2 S2].
  destruct (Hd _ _ H3 eq_refl eq_refl) as [D3 S3].
  set (e := String c1 (String c2 (String c3 ""))) in *.
  assert (Hes : rfind "/" e = None).
  { unfold e. cbn. rewrite S1, S2, S3. reflexivity. }
  assert (Hed : rfind "." e = None).
  { unfold e. cbn. rewrite D1, D2, D3. reflexivity. }
  assert (Hen : existsb not_dot (list_ascii_of_string e) = true).
  { unfold e. cbn. unfold not_dot at 1. rewrite D1. reflexivity. }
  assert (Hbase : exists x, basename m = (x ++ String "." e)%string /\
                            rfind "/" x = None).
  { unfold basename. rewrite Hm, rfind_app.
    replace (rfind "/" (String "." e)) with (@None nat)
      by (cbn [rfind]; rewrite Hes; reflexivity).
    destruct (rfind "/" y) as [i|] eqn:Ey.
    - exists (substring (S i) (String.length y - S i) y).
      split; [|exact (rfind_after _ _ _ Ey)].
      pose proof (rfind_bound _ _ _ Ey) as Hi.
      rewrite length_app_string.
      replace (String.length y + String.length (String "." e) - S i)%nat
        with (String.length y - S i + String.length (String "." e))%nat
        by lia.
      apply substring_app_l. lia.
    - exists y. split; [reflexivity|exact Ey]. }
  destruct Hbase as (x & Hb & Hx).
  exists x, e. repeat split; assumption.
Qed.

Lemma thumb_base_has_letter (m : string) :
  endswith (lower m) ".glb" = true ->
  existsb not_dot (list_ascii_of_string (thumb_base m)) = true.
Proof.
  intro H. destruct (glb_key_parts m H) as (x & e & Hb & Hx & Hes & Hed & Hen).
  unfold thumb_base. rewrite Hb, (splitext_stem_ext x e Hx Hes Hed).
  destruct (existsb not_dot (list_ascii_of_string x)) eqn:E; cbn [fst].
  - exact E.
  - rewrite not_dot_app. cbn [list_ascii_of_string existsb].
    rewrite Hen, !orb_true_r. reflexivity.
Qed.

(** The thumbnail uploaded for the base name [b] is found again. *)
Lemma thumbnail_found_again (b : string) :
  rfind "/" b = None ->
  existsb not_dot (list_ascii_of_string b) = true ->
  thumb_base ("reference_images/" ++ b ++ ".png") = b /\
  existsb (endswith (lower ("reference_images/" ++ b ++ ".png")))
          [".jpg"; ".jpeg"; ".png"] = true.
Proof.
  intros Hb Hn. split.
  - unfold thumb_base.
    change ("reference_images/" ++ b ++ ".png")%string
      with ("reference_images" ++ String "/" (b ++ ".png"))%string.
    rewrite basename_dir.
    + change (b ++ ".png")%string with (b ++ String "." "png")%string.
      rewrite (splitext_stem_ext b "png" Hb eq_refl eq_refl), Hn.
      reflexivity.
    + rewrite rfind_app. exact Hb.
  - cbn [existsb]. rewrite <- append_assoc, lower_app.
    change (lower ".png") with ".png". rewrite endswith_app.
    rewrite !orb_true_r. reflexivity.
Qed.

(** X24. The generator never selects a model whose thumbnail key is in
    the listing of [reference_images/]: the thumbnail it uploads for a
    model is recognised on the next run, whatever the directories, dots
    and letter case of the model key. *)
Theorem uploaded_thumbnail_recognised (objects : outcome (list string))
        (thumbnails todo : list string) (m : string) :
  to_process objects (Ret thumbnails) = Ret todo ->
  In (thumbnail_key m) thumbnails ->
  ~ In m todo.
Proof.
  unfold to_process, list_glb_models.
  destruct objects as [keys|e]; cbn [bind]; [|discriminate].
  intros H Hkey Hin. injection H as <-.
  apply filter_In in Hin. destruct Hin as [Hin Hnew].
  apply filter_In in Hin. destruct Hin as [_ Hglb].
  unfold is_glb_model in Hglb.
  destruct (endswith (lower m) ".glb") eqn:Hend; [|discriminate].
  destruct (thumbnail_found_again (thumb_base m)
              (thumb_base_no_slash m) (thumb_base_has_letter m Hend))
    as [Hbase Hext].
  apply negb_true_iff in Hnew.
  assert (Hex : existsb (String.eqb (thumb_base m))
                        (list_existing_thumbnails (Ret thumbnails)) = true).
  { apply existsb_exists. exists (thumb_base m).
    split; [|apply String.eqb_refl].
    unfold list_existing_thumbnails. cbn [bind try_except].
    apply in_map_iff. exists (thumbnail_key m).
    split; [exact Hbase|].
    apply filter_In. split; [exact Hkey|exact Hext]. }
  rewrite Hex in Hnew. discriminate.
Qed.

Lemma uploaded_thumbnail_recognised_witness :
  ~ In "models/Aviator.Gold.GLB" ["models/round_01.glb"].
Proof.
  apply (uploaded_thumbnail_recognised
           (Ret ["models/Aviator.Gold.GLB"; "models/round_01.glb";
                 "README.md"])
           ["reference_images/Aviator.Gold.png"]).
  - reflexivity.
  - left. reflexivity.
Defined.

(** X25. A model file named [x.glb], with [x] not made of dots only: the
    thumbnail the generator writes for it, [x.png], is listed by
    [list_refs] whenever it is in the reference directory, and the model
    name the matcher derives from that reference is the file name of the
    model again. *)
Theorem thumbnail_names_its_model (W : World) (key x : string)
        (names : list string) :
  basename key = (x ++ ".glb")%string ->
  existsb not_dot (list_ascii_of_string x) = true ->
  reference_images W = Listing names ->
  In (thumb_base key ++ ".png")%string names ->
  thumb_base key = x /\
  exists refs,
    list_refs W = Ret refs /\
    In (thumb_base key ++ ".png")%string refs /\
    (fst (splitext (thumb_base key ++ ".png")) ++ ".glb")%string
    = basename key.
Proof.
  intros Hb Hn HW Hin.
  assert (Hx : rfind "/" x = None).
  { pose proof (basename_no_slash key) as H. rewrite Hb, rfind_app in H.
    exact H. }
  assert (Hbase : thumb_base key = x).
  { unfold thumb_base. rewrite Hb.
    change (x ++ ".glb")%string with (x ++ String "." "glb")%string.
    rewrite (splitext_stem_ext x "glb" Hx eq_refl eq_refl), Hn.
    reflexivity. }
  split; [exact Hbase|].
  rewrite Hbase in Hin |- *.
  unfold list_refs. rewrite HW. eexists. split; [reflexivity|].
  split.
  - apply (Permutation.Permutation_in _ (StringSort.Permuted_sort _)).
    apply filter_In. split; [exact Hin|].
    rewrite lower_app. change (lower ".png") with (String "." "png").
    rewrite (splitext_stem_ext (lower x) "png"); try reflexivity.
    + rewrite not_dot_lower, Hn. reflexivity.
    + rewrite (rfind_lower _ _ lower_ascii_slash). exact Hx.
  - change (x ++ ".png")%string with (x ++ String "." "png")%string.
    rewrite (splitext_stem_ext x "png" Hx eq_refl eq_refl), Hn.
    symmetry. exact Hb.
Qed.

Lemma thumbnail_names_its_model_witness :
  exists refs,
    list_refs generated_refs_world = Ret refs /\
    In "ray.ban_01.png" refs /\
    (fst (splitext "ray.ban_01.png") ++ ".glb")%string = "ray.ban_01.glb".
Proof.
  destruct (thumbnail_names_its_model generated_refs_world
              "models/ray.ban_01.glb" "ray.ban_01" _
              eq_refl eq_refl eq_refl)
    as (_ & refs & Hrefs & Hin & Hname).
  - right. right. left. reflexivity.
  - exists refs. split; [exact Hrefs|]. split; [exact Hin|exact Hname].
Defined.

Lemma contains_tail (kw : string) (a : ascii) (s : string) :
  contains kw s = true -> contains kw (String a s) = true.
Proof. intro H. cbn [contains]. rewrite H. apply orb_true_r. Qed.

Lemma contains_prefix (kw s : string) :
  prefix kw s = true -> contains kw s = true.
Proof. intro H. destruct s; cbn [contains]; rewrite H; reflexivity. Qed.

Lemma contains_woman_man (s : string) :
  contains "woman" s = true -> contains "man" s = true.
Proof.
  induction s as [|a s IH]; [discriminate|].
  cbn [contains]. intro H. apply orb_true_iff in H.
  destruct H as [H|H]; [|apply contains_tail, IH, H].
  cbn [prefix] in H.
  destruct (ascii_dec "w" a); [|discriminate].
  destruct s as [|b s]; [discriminate|].
  cbn [prefix] in H.
  destruct (ascii_dec "o" b); [|discriminate].
  apply contains_tail, contains_tail, contains_prefix. exact H.
Qed.

(** X26. [list_glb_models] lists exactly the keys that end in .glb (in
    any letter case) and hold neither man nor person in lower case: the
    test for woman excludes nothing the test for man has not excluded, and
    any key with the letters man in it is dropped, whatever it names. *)
Theorem glb_models_filter (keys : list string) :
  list_glb_models (Ret keys)
  = Ret (filter (fun key =>
                   (endswith (lower key) ".glb" &&
                    negb (contains "man" (lower key)) &&
                    negb (contains "person" (lower key)))%bool) keys) /\
  (forall key models,
      list_glb_models (Ret keys) = Ret models ->
      contains "man" (lower key) = true -> ~ In key models).
Proof.
  assert (Hf : forall key,
             is_glb_model key
             = (endswith (lower key) ".glb" &&
                negb (contains "man" (lower key)) &&
                negb (contains "person" (lower key)))%bool).
  { intro key. unfold is_glb_model.
    destruct (endswith (lower key) ".glb"); [|reflexivity].
    destruct (contains "man" (lower key)) eqn:Em; [reflexivity|].
    destruct (contains "woman" (lower key)) eqn:Ew; [|reflexivity].
    rewrite (contains_woman_man _ Ew) in Em. discriminate. }
  unfold list_glb_models. cbn [bind]. split.
  - f_equal. apply filter_ext. exact Hf.
  - intros key models H Hman Hin. injection H as <-.
    apply filter_In in Hin. destruct Hin as [_ Hin].
    rewrite Hf, Hman, andb_false_r in Hin. discriminate.
Qed.

(** ** The counters of the rendering loop *)

Lemma cleanup_counts (G : Generator) (i : nat) (local_glb : string)
      (p f : nat) :
  exists d,
    cleanup G i local_glb (p, f) = (p, (f + d)%nat) /\ (d <= 1)%nat /\
    (os_remove G i local_glb = Ret tt -> d = O).
Proof.
  unfold cleanup. destruct (path_exists G i local_glb).
  - destruct (os_remove G i local_glb) as [[]|e].
    + exists O. rewrite Nat.add_0_r. repeat split. lia.
    + exists 1%nat. cbn [fst snd]. rewrite Nat.add_1_r.
      repeat split; [lia|discriminate].
  - exists O. rewrite Nat.add_0_r. repeat split. lia.
Qed.

(** One iteration adds one or two to the sum of the counters, at most
    one to [processed], and exactly one to the sum when the removal of
    the downloaded model does not fail. *)
Lemma render_one_counts (G : Generator) (i : nat) (key : string)
      (p f : nat) :
  exists dp df,
    render_one G i key (p, f) = ((p + dp)%nat, (f + df)%nat) /\
    (dp <= 1)%nat /\ (1 <= dp + df <= 2)%nat /\
    ((forall path, os_remove G i path = Ret tt) -> (dp + df = 1)%nat).
Proof.
  unfold render_one.
  destruct (download_model G i key) as [local_glb|e].
  2:{ exists O, 1%nat. rewrite Nat.add_0_r, Nat.add_1_r.
      repeat split; lia. }
  destruct (_ && path_exists G i _)%bool.
  - destruct (upload_thumbnail G i _ _) as [[]|e].
    + destruct (cleanup_counts G i local_glb (S p) f) as (d & -> & Hd & H0).
      exists 1%nat, d. rewrite Nat.add_1_r.
      repeat split; try lia.
      intro Hrm. rewrite (H0 (Hrm _)). reflexivity.
    + exists O, 1%nat. rewrite Nat.add_0_r, Nat.add_1_r.
      repeat split; lia.
  - destruct (cleanup_counts G i local_glb p (S f)) as (d & -> & Hd & H0).
    exists O, (S d). rewrite Nat.add_0_r.
    replace (f + S d)%nat with (S f + d)%nat by lia.
    repeat split; try lia.
    intro Hrm. rewrite (H0 (Hrm _)). reflexivity.
Qed.

Lemma render_loop_counts (G : Generator) (models : list string) :
  forall i p f,
  exists dp df,
    render_loop G i models (p, f) = ((p + dp)%nat, (f + df)%nat) /\
    (dp <= Datatypes.length models)%nat /\
    (Datatypes.length models <= dp + df <= 2 * Datatypes.length models)%nat /\
    ((forall j path, os_remove G j path = Ret tt) ->
     (dp + df = Datatypes.length models)%nat).
Proof.
  induction models as [|key models IH]; intros i p f; cbn [render_loop].
  - exists O, O. rewrite !Nat.add_0_r. cbn. repeat split; lia.
  - destruct (render_one_counts G i key p f) as (dp1 & df1 & -> & H1 & H2 & H3).
    destruct (IH (S i) (p + dp1)%nat (f + df1)%nat)
      as (dp2 & df2 & -> & H4 & H5 & H6).
    exists (dp1 + dp2)%nat, (df1 + df2)%nat.
    rewrite !Nat.add_assoc. cbn [Datatypes.length].
    repeat split; try lia.
    intro Hrm. specialize (H3 (Hrm i)). specialize (H6 Hrm). lia.
Qed.

(** X27. The counters of the generator's loop: [processed] never exceeds
    the number of models, every model is counted at least once and at most
    twice, and the printed total [processed + failed] is the number of
    models whenever the removal of the downloaded file does not fail. A
    failing removal is counted as a failure on top of what the iteration
    had already counted. *)
Theorem render_counters (G : Generator) (models : list string) :
  let n := Datatypes.length models in
  let processed := fst (render_all G models) in
  let failed := snd (render_all G models) in
  (processed <= n)%nat /\
  (n <= processed + failed <= 2 * n)%nat /\
  ((forall j path, os_remove G j path = Ret tt) ->
   (processed + failed = n)%nat).
Proof.
  unfold render_all.
  destruct (render_loop_counts G models 0 0 0)
    as (dp & df & -> & H1 & H2 & H3).
  cbn [Nat.add fst snd]. split; [exact H1|]. split; [exact H2|exact H3].
Qed.

Lemma render_counters_witness :
  (fst (render_all smooth_generator ["a.glb"; "b.glb"])
   + snd (render_all smooth_generator ["a.glb"; "b.glb"]) = 2)%nat.
Proof.
  exact (proj2 (proj2 (render_counters smooth_generator ["a.glb"; "b.glb"]))
               (fun _ _ => eq_refl)).
Defined.

(** The upper bound is reached: a model that is uploaded and then cannot
    be removed is counted as a success and as a failure. *)
Example counted_twice : render_all stuck_cleanup ["a.glb"] = (1%nat, 1%nat).
Proof. reflexivity. Qed.
